(** * DevConsole - Content Workflow: the console's state logic

    A shallow embedding of the state updates of [DevConsole]
    (the React component of the repository): the log list kept by [addLog],
    the metric update of [updateSystem], the step rotation of [nextStep]
    and the advisor call of [handleSync], followed by the properties the
    specification states about them.

    Conventions.
    - A React state cell is a field of [ConsoleState]; a functional update
      [setX(prev => f prev)] is the function [f] applied to the field.
    - A handler is the closure of one render.  The only state it reads is
      the [isAiLoading] that [handleSync] tests: the constant its render
      captured, which is a parameter of [handleSync] and comes with the
      click that calls it.
    - JavaScript numbers are rationals ([Q]); every arithmetic operation
      that rounds in IEEE-754 double precision goes through the rounding
      operator [fl] of the class [Rounding], so that the theorems hold for
      every rounding that satisfies the laws listed there.
    - [Math.random()] and [Date.now()] are inputs: a draw is a number [r]
      with [0 <= r < 1], the clock is an integer number of milliseconds.
    - The built-in string functions [trim] and [toUpperCase] are the fields
      of the class [StringOps]; [ascii_ops] gives them on ASCII text. *)

From Stdlib Require Import ZArith List String Ascii Bool Lia.
From Stdlib Require Import QArith Qround Qminmax Qabs Lqa.
From Stdlib Require Import DecimalString DecimalZ.
Import ListNotations.

Open Scope Z_scope.

(** ** JavaScript built-ins used by the component *)

Module JS.

(** [Array.prototype.slice(start)] with the end omitted: a negative [start]
    counts from the end, and the start index is clipped to [0 .. length]. *)
Definition slice {A : Type} (start : Z) (l : list A) : list A :=
  let len := Z.of_nat (List.length l) in
  let k := if start <? 0 then Z.max (len + start) 0 else Z.min start len in
  skipn (Z.to_nat k) l.

(** [Number.prototype.toString()] on an integer (below 10^21 in size):
    its decimal digits, with a minus sign when negative. *)
Definition toString (n : Z) : string :=
  NilZero.string_of_int (Z.to_int n).

(** The remainder operator [%] on integers: the sign follows the dividend. *)
Definition rem (a b : Z) : Z := Z.rem a b.

(** A string is truthy when it is not empty. *)
Definition truthy (s : string) : bool :=
  match s with
  | EmptyString => false
  | String _ _ => true
  end.

(** [a || b] on strings. *)
Definition or_else (a b : string) : string :=
  if truthy a then a else b.

End JS.

(** The two string methods [handleSync] calls.  [toUpperCase] maps every
    character to one or more characters: the result is empty exactly when
    the string is. *)
Class StringOps : Type := {
  trim : string -> string;
  toUpperCase : string -> string;
  toUpperCase_empty : toUpperCase EmptyString = EmptyString;
  toUpperCase_nonempty : forall s, toUpperCase s = EmptyString -> s = EmptyString
}.

(** ** Types of the component *)

(** [LogEntry['type']]: the union ['info' | 'ai' | 'error']. *)
Inductive LogType : Type :=
| info
| ai
| error.

Record LogEntry : Type := mkLogEntry {
  id : string;
  text : string;
  type : LogType
}.

(** ** The log list *)

(** [addLog]'s updater:
    [prev => [...prev.slice(-15), { id: Date.now().toString(), text, type }]].
    [now] is the value [Date.now()] returns when the updater runs. *)
Definition addLog (now : Z) (text : string) (type : LogType)
  (prev : list LogEntry) : list LogEntry :=
  JS.slice (-15) prev ++ [mkLogEntry (JS.toString now) text type].

(** One call of [addLog]: the clock reading and the two arguments. *)
Record LogCall : Type := mkLogCall {
  call_now : Z;
  call_text : string;
  call_type : LogType
}.

Definition entry_of (c : LogCall) : LogEntry :=
  mkLogEntry (JS.toString (call_now c)) (call_text c) (call_type c).

Definition addLog_call (prev : list LogEntry) (c : LogCall) : list LogEntry :=
  addLog (call_now c) (call_text c) (call_type c) prev.

(** The log after a sequence of calls, in the order they are processed. *)
Definition addLogs (calls : list LogCall) (prev : list LogEntry) : list LogEntry :=
  fold_left addLog_call calls prev.

(** The specification's reading of the log buffer: a sequence truncated to
    its last [n] elements, the oldest dropped first. *)
Definition keep_last {A : Type} (n : nat) (l : list A) : list A :=
  skipn (List.length l - n) l.

Definition LOG_CAPACITY : nat := 16.

(** The two entries the log starts with. *)
Definition initial_logs : list LogEntry :=
  [ mkLogEntry "1" "SYSTEM_BOOT_COMPLETE" info;
    mkLogEntry "2" "LISTENING_FOR_INPUT..." info ].

(** ** Numbers *)

(** Rounding of an exact result to a double.  The laws are those of
    round-to-nearest on finite values that the proofs use: rounding is
    monotone and idempotent, integers up to 2^53 in size are doubles, and
    doubling or halving a double of moderate size is exact. *)
Class Rounding : Type := {
  fl : Q -> Q;
  fl_mono : forall x y : Q, (x <= y)%Q -> (fl x <= fl y)%Q;
  fl_idem : forall x : Q, (fl (fl x) == fl x)%Q;
  fl_int : forall z : Z, Z.abs z <= 2 ^ 53 -> (fl (inject_Z z) == inject_Z z)%Q;
  fl_double : forall x : Q,
    (fl x == x)%Q -> (Qabs x <= inject_Z (2 ^ 53))%Q -> (fl (2 * x) == 2 * x)%Q;
  fl_halve : forall x : Q,
    (fl x == x)%Q -> (1 <= Qabs x)%Q -> (fl (x / 2) == x / 2)%Q
}.

(** A number that is a double: rounding leaves it as it is. *)
Definition is_double `{Rounding} (x : Q) : Prop := (fl x == x)%Q.

(** A value [Math.random()] can return. *)
Definition is_draw `{Rounding} (r : Q) : Prop :=
  (0 <= r)%Q /\ (r < 1)%Q /\ is_double r.

Module JSMath.

Definition add `{Rounding} (x y : Q) : Q := fl (x + y).
Definition sub `{Rounding} (x y : Q) : Q := fl (x - y).
Definition mul `{Rounding} (x y : Q) : Q := fl (x * y).

(** [Math.min] and [Math.max] of two numbers. *)
Definition min (x y : Q) : Q := Qmin x y.
Definition max (x y : Q) : Q := Qmax x y.

(** [Math.floor]. *)
Definition floor (x : Q) : Q := inject_Z (Qfloor x).

(** [Math.round]: the nearest integer, a tie going up. *)
Definition round (x : Q) : Q := inject_Z (Qfloor (x + (1 # 2))).

(** [x.toFixed(2)] read back by [parseFloat]: the multiple of 1/100 nearest
    to [x], a tie going away from zero, rounded to a double. *)
Definition toFixed2 `{Rounding} (x : Q) : Q :=
  if Qle_bool 0 x
  then fl (inject_Z (Qfloor (x * 100 + (1 # 2))) / 100)
  else fl (- (inject_Z (Qfloor (- x * 100 + (1 # 2))) / 100)).

End JSMath.

Record MetricState : Type := mkMetricState {
  cpuLoad : Q;
  flowVel : Q;
  views : Q;
  conversionRate : Q
}.

(** The four values [Math.random()] returns while the updater of
    [updateSystem] runs, in the order of the calls. *)
Record Draws : Type := mkDraws {
  r_cpu : Q;
  r_flow : Q;
  r_views : Q;
  r_conv : Q
}.

(** The updater [updateSystem] passes to [setMetrics]. *)
Definition tick `{Rounding} (d : Draws) (prev : MetricState) : MetricState :=
  {| cpuLoad :=
       JSMath.min 100 (JSMath.max 0
         (JSMath.add (cpuLoad prev) (JSMath.mul (JSMath.sub (r_cpu d) (1 # 2)) 4)));
     flowVel :=
       JSMath.round (JSMath.min 2000 (JSMath.max 100
         (JSMath.add (flowVel prev) (JSMath.mul (JSMath.sub (r_flow d) (1 # 2)) 80))));
     views :=
       JSMath.add (views prev) (JSMath.floor (JSMath.mul (r_views d) 8));
     conversionRate :=
       JSMath.toFixed2
         (JSMath.add (conversionRate prev)
            (JSMath.mul (JSMath.sub (r_conv d) (1 # 2)) (fl (15 # 100)))) |}.

(** The metrics after a sequence of ticks. *)
Definition ticks `{Rounding} (ds : list Draws) (m : MetricState) : MetricState :=
  fold_left (fun acc d => tick d acc) ds m.

(** The metrics the console starts with. *)
Definition initial_metrics `{Rounding} : MetricState :=
  {| cpuLoad := fl (428 # 10);
     flowVel := 892;
     views := 14284;
     conversionRate := fl (42 # 10) |}.

(** The specification's reading of the tick: a value clamped to [lo, hi],
    and the perturbation of amplitude [c / 2] drawn with [r]. *)
Definition clamp (lo hi x : Q) : Q := Qmin hi (Qmax lo x).

Definition perturbation `{Rounding} (c r : Q) : Q :=
  JSMath.mul (JSMath.sub r (1 # 2)) c.

(** The increment of [views] drawn with [r]. *)
Definition views_increment `{Rounding} (r : Q) : Z :=
  Qfloor (JSMath.mul r 8).

Definition sample_draws : Draws :=
  {| r_cpu := 9 # 10; r_flow := 1 # 4; r_views := 7 # 8; r_conv := 1 # 2 |}.

(** ** The step rotator *)

(** The updater [nextStep] passes to [setActiveStep]. *)
Definition nextStep (prev : Z) : Z := JS.rem (prev + 1) 4.

(** ** The console *)

Record StepDetails : Type := mkStepDetails {
  estTime : string;
  allocation : string;
  threads : Z;
  status : string
}.

(** [WorkflowStep] without its icon, which only the markup uses. *)
Record WorkflowStep : Type := mkWorkflowStep {
  step_id : string;
  label : string;
  subtext : string;
  details : StepDetails
}.

Definition workflowSteps : list WorkflowStep :=
  [ mkWorkflowStep "ideate" "IDEATE" "STRATEGY_SPARK.EXE"
      (mkStepDetails "00:14:22" "Low-Latency Core" 4 "COMPLETED");
    mkWorkflowStep "create" "CREATE" "MULTI_FORMAT_GEN.LOG"
      (mkStepDetails "01:45:00" "GPU Cluster A" 12 "PROCESSING");
    mkWorkflowStep "optimize" "OPTIMIZE" "SEO_ALIGNED_V4"
      (mkStepDetails "00:08:15" "Neural Engine" 2 "PENDING");
    mkWorkflowStep "publish" "PUBLISH" "OMNICHANNEL_DIST"
      (mkStepDetails "00:02:30" "Net-Gateway" 1 "QUEUED") ].

(** The state cells of [DevConsole]. *)
Record ConsoleState : Type := mkConsoleState {
  metrics : MetricState;
  activeStep : Z;
  selectedStep : option WorkflowStep;
  now : Z;
  logs : list LogEntry;
  isAiLoading : bool
}.

Definition initial_state `{Rounding} (start : Z) : ConsoleState :=
  {| metrics := initial_metrics;
     activeStep := 0;
     selectedStep := None;
     now := start;
     logs := initial_logs;
     isAiLoading := false |}.

(** The argument of [ai.models.generateContent]. *)
Record GenerateContentRequest : Type := mkRequest {
  model : string;
  contents : string
}.

Definition advisor_request : GenerateContentRequest :=
  {| model := "gemini-3-flash-preview";
     contents := "Provide a extremely short 5-8 word technical system status update for a content marketing workflow console. Example: ALL_NODES_OPTIMIZED_CONVERSION_PEAK_DETECTED. No punctuation." |}.

(** What the awaited call comes back with: the promise is rejected (network
    error, timeout, a response that cannot be read), or it is fulfilled with
    a response whose [text] may be undefined. *)
Inductive AdvisorOutcome : Type :=
| Rejected (reason : string)
| Fulfilled (response_text : option string).

(** The component together with the requests it has sent. *)
Record World : Type := mkWorld {
  console : ConsoleState;
  outbound : list GenerateContentRequest
}.

(** *** Handlers as tasks

    A task runs to completion at one clock reading; it changes the world and
    either returns or throws. *)
Inductive Completion (A : Type) : Type :=
| Normal (a : A)
| Throw (e : string).

Arguments Normal {A} a.
Arguments Throw {A} e.

Definition Task (A : Type) : Type := Z -> World -> Completion A * World.

Definition ret {A : Type} (a : A) : Task A :=
  fun _ w => (Normal a, w).

Definition throw {A : Type} (e : string) : Task A :=
  fun _ w => (Throw e, w).

Definition bind {A B : Type} (m : Task A) (k : A -> Task B) : Task B :=
  fun t w =>
    match m t w with
    | (Normal a, w') => k a t w'
    | (Throw e, w') => (Throw e, w')
    end.

Declare Scope task_scope.
Delimit Scope task_scope with task.
Notation "x <- m ;; k" := (bind m (fun x => k))
  (at level 61, m at next level, right associativity) : task_scope.
Notation "m ;; k" := (bind m (fun _ => k))
  (at level 61, right associativity) : task_scope.

(** [try { body } catch (e) { handler } finally { cleanup }]. *)
Definition try_catch_finally {A : Type} (body : Task A)
  (handler : string -> Task A) (cleanup : Task unit) : Task A :=
  fun t w =>
    let (c, w1) :=
      match body t w with
      | (Normal a, w') => (Normal a, w')
      | (Throw e, w') => handler e t w'
      end in
    match cleanup t w1 with
    | (Normal _, w2) => (c, w2)
    | (Throw e, w2) => (Throw e, w2)
    end.

Definition update (f : ConsoleState -> ConsoleState) : Task unit :=
  fun _ w => (Normal tt, {| console := f (console w); outbound := outbound w |}).

(** [Date.now()]. *)
Definition Date_now : Task Z :=
  fun t w => (Normal t, w).

Definition with_metrics (f : MetricState -> MetricState) (s : ConsoleState)
  : ConsoleState :=
  {| metrics := f (metrics s); activeStep := activeStep s;
     selectedStep := selectedStep s; now := now s;
     logs := logs s; isAiLoading := isAiLoading s |}.

Definition with_activeStep (f : Z -> Z) (s : ConsoleState) : ConsoleState :=
  {| metrics := metrics s; activeStep := f (activeStep s);
     selectedStep := selectedStep s; now := now s;
     logs := logs s; isAiLoading := isAiLoading s |}.

Definition with_selectedStep (v : option WorkflowStep) (s : ConsoleState)
  : ConsoleState :=
  {| metrics := metrics s; activeStep := activeStep s;
     selectedStep := v; now := now s;
     logs := logs s; isAiLoading := isAiLoading s |}.

Definition with_now (v : Z) (s : ConsoleState) : ConsoleState :=
  {| metrics := metrics s; activeStep := activeStep s;
     selectedStep := selectedStep s; now := v;
     logs := logs s; isAiLoading := isAiLoading s |}.

Definition with_logs (f : list LogEntry -> list LogEntry) (s : ConsoleState)
  : ConsoleState :=
  {| metrics := metrics s; activeStep := activeStep s;
     selectedStep := selectedStep s; now := now s;
     logs := f (logs s); isAiLoading := isAiLoading s |}.

Definition with_isAiLoading (b : bool) (s : ConsoleState) : ConsoleState :=
  {| metrics := metrics s; activeStep := activeStep s;
     selectedStep := selectedStep s; now := now s;
     logs := logs s; isAiLoading := b |}.

Definition setMetrics (f : MetricState -> MetricState) : Task unit :=
  update (with_metrics f).

Definition setActiveStep (f : Z -> Z) : Task unit :=
  update (with_activeStep f).

Definition setSelectedStep (v : option WorkflowStep) : Task unit :=
  update (with_selectedStep v).

Definition setNow (v : Z) : Task unit :=
  update (with_now v).

Definition setLogs (f : list LogEntry -> list LogEntry) : Task unit :=
  update (with_logs f).

Definition setIsAiLoading (b : bool) : Task unit :=
  update (with_isAiLoading b).

(** [ai.models.generateContent(request)] up to the point where the caller
    waits: the request leaves. *)
Definition generateContent (request : GenerateContentRequest) : Task unit :=
  fun _ w => (Normal tt, {| console := console w; outbound := outbound w ++ [request] |}).

(** The end of the wait: a rejected promise throws at the [await]. *)
Definition settle (o : AdvisorOutcome) : Task (option string) :=
  match o with
  | Rejected reason => throw reason
  | Fulfilled response_text => ret response_text
  end.

Open Scope task_scope.

(** [addLog] as the component calls it. *)
Definition addLog_task (text : string) (type : LogType) : Task unit :=
  t <- Date_now ;;
  setLogs (addLog t text type).

(** [response.text?.trim().toUpperCase() || 'INSIGHT_FETCH_TIMEOUT']. *)
Definition insight_of `{StringOps} (response_text : option string) : string :=
  match response_text with
  | None => "INSIGHT_FETCH_TIMEOUT"
  | Some t => JS.or_else (toUpperCase (trim t)) "INSIGHT_FETCH_TIMEOUT"
  end.

(** [handleSync] from its call to the [await].  Each render makes its own
    [handleSync]; the [isAiLoading] it tests is the constant that render got
    from [useState], not the cell as it is when the handler runs. *)
Definition handleSync (isAiLoading : bool) : Task unit :=
  if isAiLoading then ret tt
  else
    setIsAiLoading true ;;
    addLog_task "REQUESTING_AI_INSIGHT..." ai ;;
    generateContent advisor_request.

(** [handleSync] from the end of the wait to its return. *)
Definition handleSync_resume `{StringOps} (o : AdvisorOutcome) : Task unit :=
  try_catch_finally
    (response_text <- settle o ;;
     addLog_task (insight_of response_text) ai)
    (fun _ => addLog_task "AI_GATEWAY_TIMEOUT" error)
    (setIsAiLoading false).

(** [updateSystem] without its timer. *)
Definition updateSystem `{Rounding} (d : Draws) : Task unit :=
  t <- Date_now ;;
  setNow t ;;
  setMetrics (tick d).

Close Scope task_scope.

(** What happens to the console.  A click on the advisor button goes to the
    [handleSync] of the render that is on the page, and [seen] is the
    [isAiLoading] that render captured; it is the live cell once React has
    rendered again, and the old value until then (two clicks within one
    task share a render).  With [seen] true the button is disabled and
    nothing is called, which is what the guard of [handleSync] does too. *)
Inductive Event : Type :=
| MetricTimer (d : Draws)
| StepTimer
| SelectStep (s : WorkflowStep)
| ClearSelection
| DeployClick
| SyncClick (seen : bool)
| AdvisorSettled (o : AdvisorOutcome).

Definition handler `{Rounding} `{StringOps} (e : Event) : Task unit :=
  match e with
  | MetricTimer d => updateSystem d
  | StepTimer => setActiveStep nextStep
  | SelectStep s => setSelectedStep (Some s)
  | ClearSelection => setSelectedStep None
  | DeployClick => addLog_task "INITIATING_CAMPAIGN_SEQUENCE..." info
  | SyncClick seen => handleSync seen
  | AdvisorSettled o => handleSync_resume o
  end.

(** One event, handled at the clock reading it comes with. *)
Definition step `{Rounding} `{StringOps} (w : World) (te : Z * Event) : World :=
  snd (handler (snd te) (fst te) w).

Definition run `{Rounding} `{StringOps} (es : list (Z * Event)) (w : World) : World :=
  fold_left step es w.

Definition initial_world `{Rounding} (start : Z) : World :=
  {| console := initial_state start; outbound := [] |}.

(** ** What a sequence of events holds for each state cell *)

(** The draws of the metric ticks, in order. *)
Definition draws_of (es : list (Z * Event)) : list Draws :=
  flat_map (fun te => match snd te with MetricTimer d => [d] | _ => [] end) es.

(** The number of rotations. *)
Definition rotations_of (es : list (Z * Event)) : nat :=
  List.length
    (filter (fun te => match snd te with StepTimer => true | _ => false end) es).

(** The step left selected by the clicks on the items and on the overlay. *)
Definition selection_after (es : list (Z * Event)) (sel : option WorkflowStep)
  : option WorkflowStep :=
  fold_left
    (fun acc te =>
       match snd te with
       | SelectStep s => Some s
       | ClearSelection => None
       | _ => acc
       end)
    es sel.

Definition is_selection (te : Z * Event) : bool :=
  match snd te with
  | SelectStep _ | ClearSelection => true
  | _ => false
  end.

(** The number of requests that came back. *)
Definition settled_of (es : list (Z * Event)) : nat :=
  List.length
    (filter (fun te => match snd te with AdvisorSettled _ => true | _ => false end) es).

(** Every [AdvisorSettled] of the sequence answers a request that was sent
    and has not been answered yet; [settled] counts the answers so far. *)
Fixpoint answers_requests `{Rounding} `{StringOps}
  (es : list (Z * Event)) (w : World) (settled : nat) : bool :=
  match es with
  | [] => true
  | te :: es' =>
      match snd te with
      | AdvisorSettled _ =>
          (settled <? List.length (outbound w))%nat
          && answers_requests es' (step w te) (Datatypes.S settled)
      | _ => answers_requests es' (step w te) settled
      end
  end.

(** Every click on the advisor button reaches a handler whose render is up
    to date: the [isAiLoading] it captured is the cell as it is at the
    click (React has rendered since the cell last changed). *)
Fixpoint clicks_see_state `{Rounding} `{StringOps}
  (es : list (Z * Event)) (w : World) : bool :=
  match es with
  | [] => true
  | te :: es' =>
      match snd te with
      | SyncClick seen => Bool.eqb seen (isAiLoading (console w))
      | _ => true
      end
      && clicks_see_state es' (step w te)
  end.

(** The calls of [addLog] made by the clicks on the deploy button. *)
Definition deploy_calls (es : list (Z * Event)) : list LogCall :=
  flat_map
    (fun te =>
       match snd te with
       | DeployClick => [mkLogCall (fst te) "INITIATING_CAMPAIGN_SEQUENCE..." info]
       | _ => []
       end)
    es.

(** No request comes back during the sequence. *)
Definition no_settlement (es : list (Z * Event)) : bool :=
  forallb (fun te => match snd te with AdvisorSettled _ => false | _ => true end) es.

(** The ranges the state cells stay in. *)
Definition within_bounds (s : ConsoleState) : Prop :=
  (0 <= cpuLoad (metrics s) <= 100)%Q
  /\ (exists z : Z, flowVel (metrics s) = inject_Z z /\ 100 <= z <= 2000)
  /\ 0 <= activeStep s <= 3
  /\ (List.length (logs s) <= 16)%nat.

(** ** What the markup computes from the state *)

(** [isActive={activeStep === idx}] of the item at position [idx]. *)
Definition isActive (s : ConsoleState) (idx : Z) : bool := activeStep s =? idx.

(** The [isActive] flags of [workflowSteps.map((step, idx) => ...)]. *)
Definition active_flags (s : ConsoleState) : list bool :=
  map (fun idx => isActive s (Z.of_nat idx)) (seq 0 (List.length workflowSteps)).

(** The width, in percent, [MetricBar] animates to. *)
Definition MetricBar_width (progress : Q) : Q := JSMath.min 100 progress.

(** [progress={metrics.cpuLoad}]. *)
Definition cpu_progress (m : MetricState) : Q := cpuLoad m.

(** [progress={(metrics.flowVel / 2000) * 100}]. *)
Definition throughput_progress `{Rounding} (m : MetricState) : Q :=
  JSMath.mul (fl (flowVel m / 2000)) 100.

(** ** The two timers *)

(** The delay [updateSystem] passes to [setTimeout]:
    [1000 + Math.random() * 1000]. *)
Definition tick_delay `{Rounding} (r : Q) : Q :=
  JSMath.add 1000 (JSMath.mul r 1000).

Module Timers.

(** The function a timer calls. *)
Inductive Callback : Type :=
| cb_updateSystem
| cb_nextStep.

Record Timeout : Type := mkTimeout {
  handle : Z;
  delay : Q;
  callback : Callback
}.

(** The component with the timers that are set and have neither fired nor
    been cleared, the next handle [setTimeout] returns, and the [timeoutId]
    variable of each effect ([None] while it is undefined). *)
Record Runtime : Type := mkRuntime {
  world : World;
  queue : list Timeout;
  fresh : Z;
  metricsTimeoutId : option Z;
  stepsTimeoutId : option Z
}.

Definition with_world (w : World) (rt : Runtime) : Runtime :=
  {| world := w; queue := queue rt; fresh := fresh rt;
     metricsTimeoutId := metricsTimeoutId rt; stepsTimeoutId := stepsTimeoutId rt |}.

Definition with_queue (q : list Timeout) (rt : Runtime) : Runtime :=
  {| world := world rt; queue := q; fresh := fresh rt;
     metricsTimeoutId := metricsTimeoutId rt; stepsTimeoutId := stepsTimeoutId rt |}.

Definition with_metricsTimeoutId (h : Z) (rt : Runtime) : Runtime :=
  {| world := world rt; queue := queue rt; fresh := fresh rt;
     metricsTimeoutId := Some h; stepsTimeoutId := stepsTimeoutId rt |}.

Definition with_stepsTimeoutId (h : Z) (rt : Runtime) : Runtime :=
  {| world := world rt; queue := queue rt; fresh := fresh rt;
     metricsTimeoutId := metricsTimeoutId rt; stepsTimeoutId := Some h |}.

(** [setTimeout(callback, delay)]: the timer is set and its handle returned. *)
Definition setTimeout (cb : Callback) (ms : Q) (rt : Runtime) : Z * Runtime :=
  (fresh rt,
   {| world := world rt;
      queue := queue rt ++ [mkTimeout (fresh rt) ms cb];
      fresh := fresh rt + 1;
      metricsTimeoutId := metricsTimeoutId rt;
      stepsTimeoutId := stepsTimeoutId rt |}).

Definition without (h : Z) (q : list Timeout) : list Timeout :=
  filter (fun x => negb (handle x =? h)) q.

(** [clearTimeout(timeoutId)]; nothing happens for an undefined handle or
    one that is not set. *)
Definition clearTimeout (h : option Z) (rt : Runtime) : Runtime :=
  match h with
  | None => rt
  | Some h' => with_queue (without h' (queue rt)) rt
  end.

(** [updateSystem]: the state update, then the next call is scheduled. *)
Definition updateSystem_loop `{Rounding} (t : Z) (d : Draws) (r : Q)
  (rt : Runtime) : Runtime :=
  let rt1 := with_world (snd (updateSystem d t (world rt))) rt in
  let (h, rt2) := setTimeout cb_updateSystem (tick_delay r) rt1 in
  with_metricsTimeoutId h rt2.

(** The function [nextStep] of the second effect. *)
Definition nextStep_loop (t : Z) (rt : Runtime) : Runtime :=
  let rt1 := with_world (snd (setActiveStep nextStep t (world rt))) rt in
  let (h, rt2) := setTimeout cb_nextStep 8000 rt1 in
  with_stepsTimeoutId h rt2.

(** The two effects when the component is mounted: the first calls
    [updateSystem], the second sets the first rotation timer. *)
Definition mount `{Rounding} (t : Z) (d : Draws) (r : Q) (rt : Runtime) : Runtime :=
  let rt1 := updateSystem_loop t d r rt in
  let (h, rt2) := setTimeout cb_nextStep 8000 rt1 in
  with_stepsTimeoutId h rt2.

(** The cleanups of the two effects. *)
Definition unmount (rt : Runtime) : Runtime :=
  let rt1 := clearTimeout (metricsTimeoutId rt) rt in
  clearTimeout (stepsTimeoutId rt1) rt1.

(** The timer with handle [h] fires at clock reading [t]: it leaves the
    queue and its callback runs.  A handle that is not set does nothing. *)
Definition fire `{Rounding} (h : Z) (t : Z) (d : Draws) (r : Q) (rt : Runtime)
  : Runtime :=
  match find (fun x => handle x =? h) (queue rt) with
  | None => rt
  | Some x =>
      let rt1 := with_queue (without h (queue rt)) rt in
      match callback x with
      | cb_updateSystem => updateSystem_loop t d r rt1
      | cb_nextStep => nextStep_loop t rt1
      end
  end.

(** What happens while the component is mounted: a timer fires (with the
    draws its callback would take), or the user or the advisor acts. *)
Inductive Occurrence : Type :=
| Fire (h : Z) (t : Z) (d : Draws) (r : Q)
| Act (t : Z) (e : Event).

Definition occur `{Rounding} `{StringOps} (rt : Runtime) (o : Occurrence) : Runtime :=
  match o with
  | Fire h t d r => fire h t d r rt
  | Act t e => with_world (step (world rt) (t, e)) rt
  end.

Definition occur_all `{Rounding} `{StringOps} (os : list Occurrence) (rt : Runtime)
  : Runtime :=
  fold_left occur os rt.

(** The runtime before the component is mounted. *)
Definition boot `{Rounding} (start : Z) : Runtime :=
  {| world := initial_world start; queue := []; fresh := 1;
     metricsTimeoutId := None; stepsTimeoutId := None |}.

(** The two loops are armed: the queue holds the timer of [updateSystem] and
    the timer of [nextStep], 8000 ms, and nothing else, and each effect's
    [timeoutId] is the handle of its timer. *)
Definition armed (rt : Runtime) : Prop :=
  exists (hm hs : Z) (dm : Q),
    hm <> hs
    /\ hm < fresh rt /\ hs < fresh rt
    /\ metricsTimeoutId rt = Some hm
    /\ stepsTimeoutId rt = Some hs
    /\ List.length (queue rt) = 2%nat
    /\ In (mkTimeout hm dm cb_updateSystem) (queue rt)
    /\ In (mkTimeout hs 8000 cb_nextStep) (queue rt).

(** Every timer set is one of [updateSystem] with a delay between one and
    two seconds, or one of [nextStep] with a delay of 8000 ms. *)
Definition delays_ok (rt : Runtime) : Prop :=
  forall x : Timeout,
    In x (queue rt) ->
    (callback x = cb_updateSystem /\ (1000 <= delay x <= 2000)%Q)
    \/ (callback x = cb_nextStep /\ delay x = 8000%Q).

(** The draw an occurrence brings for the next delay is one [Math.random()]
    can return. *)
Definition draw_in_range (o : Occurrence) : Prop :=
  match o with
  | Fire _ _ _ r => (0 <= r)%Q /\ (r < 1)%Q
  | Act _ _ => True
  end.

End Timers.

(** ** Instances and inputs used to run the definitions *)

Definition sample_clock : Z := 1730000000000.

(** Seventeen clicks on the deploy button, a millisecond apart. *)
Definition seventeen_calls : list LogCall :=
  map (fun n => mkLogCall (sample_clock + Z.of_nat n) "INITIATING_CAMPAIGN_SEQUENCE..." info)
      (seq 0 17).

(** A click on the advisor button whose request is rejected at once. *)
Definition same_clock_events : list (Z * Event) :=
  [ (sample_clock, SyncClick false);
    (sample_clock, AdvisorSettled (Rejected "An API Key must be set")) ].

(** A session: the advisor is asked, the deploy button is clicked, a step is
    looked at, both timers fire, and the advisor answers. *)
Definition sample_events : list (Z * Event) :=
  [ (sample_clock, SyncClick false);
    (sample_clock + 5, DeployClick);
    (sample_clock + 10, SyncClick true);
    (sample_clock + 20, MetricTimer sample_draws);
    (sample_clock + 30, SelectStep (mkWorkflowStep "create" "CREATE" "MULTI_FORMAT_GEN.LOG"
                                      (mkStepDetails "01:45:00" "GPU Cluster A" 12 "PROCESSING")));
    (sample_clock + 40, StepTimer);
    (sample_clock + 900, AdvisorSettled (Fulfilled (Some "cache warm"%string))) ].

(** What happens between the two clicks on the advisor button and the
    answer. *)
Definition sample_wait : list (Z * Event) :=
  [ (sample_clock + 5, DeployClick);
    (sample_clock + 10, SyncClick true);
    (sample_clock + 40, StepTimer) ].

(** Two clicks on the advisor button within one task, as two calls of
    [click()] in a row make them: React has not rendered in between, so both
    reach the handler of the first render. *)
Definition one_task_clicks : list (Z * Event) :=
  [ (sample_clock, SyncClick false);
    (sample_clock, SyncClick false) ].

(** Three clicks on the deploy button. *)
Definition three_calls : list LogCall :=
  [ mkLogCall sample_clock "INITIATING_CAMPAIGN_SEQUENCE..." info;
    mkLogCall (sample_clock + 1) "INITIATING_CAMPAIGN_SEQUENCE..." info;
    mkLogCall (sample_clock + 7) "INITIATING_CAMPAIGN_SEQUENCE..." info ].

(** Both timers fire, a handle that is no longer set fires, the user clicks. *)
Definition sample_occurrences : list Timers.Occurrence :=
  [ Timers.Fire 1 (sample_clock + 1500) sample_draws (1 # 4);
    Timers.Act (sample_clock + 2000) DeployClick;
    Timers.Fire 2 (sample_clock + 8000) sample_draws (1 # 2);
    Timers.Fire 1 (sample_clock + 8001) sample_draws (3 # 4);
    Timers.Fire 3 (sample_clock + 9000) sample_draws (1 # 8) ].

(** Exact arithmetic: nothing is rounded. *)
#[export] Instance exact_rounding : Rounding.
Proof.
  refine {| fl := fun x => x |}; intros; try assumption; reflexivity.
Defined.

Module AsciiText.

Definition is_space (c : ascii) : bool :=
  let n := nat_of_ascii c in
  ((9 <=? n) && (n <=? 13) || (n =? 32))%nat.

Definition upper (c : ascii) : ascii :=
  let n := nat_of_ascii c in
  if ((97 <=? n) && (n <=? 122))%nat then ascii_of_nat (n - 32) else c.

Fixpoint trimStart (s : string) : string :=
  match s with
  | EmptyString => EmptyString
  | String c s' => if is_space c then trimStart s' else s
  end.

Fixpoint trimEnd (s : string) : string :=
  match s with
  | EmptyString => EmptyString
  | String c s' =>
      match trimEnd s' with
      | EmptyString => if is_space c then EmptyString else String c EmptyString
      | r => String c r
      end
  end.

Fixpoint map_chars (f : ascii -> ascii) (s : string) : string :=
  match s with
  | EmptyString => EmptyString
  | String c s' => String (f c) (map_chars f s')
  end.

End AsciiText.

(** [trim] and [toUpperCase] on ASCII text. *)
#[export] Instance ascii_ops : StringOps.
Proof.
  refine {| trim := fun s => AsciiText.trimEnd (AsciiText.trimStart s);
            toUpperCase := AsciiText.map_chars AsciiText.upper |}.
  - reflexivity.
  - intros [| c s]; [reflexivity | discriminate].
Defined.

(** ** Properties of the log list *)

Lemma slice_last (A : Type) (n : nat) (l : list A) :
  JS.slice (- Z.of_nat (S n)) l = keep_last (S n) l.
Proof.
  unfold JS.slice, keep_last.
  replace (- Z.of_nat (S n) <? 0) with true by (symmetry; apply Z.ltb_lt; lia).
  f_equal. lia.
Qed.

Lemma keep_last_length (A : Type) (n : nat) (l : list A) :
  List.length (keep_last n l) = Nat.min n (List.length l).
Proof. unfold keep_last. rewrite length_skipn. lia. Qed.

Lemma keep_last_all (A : Type) (n : nat) (l : list A) :
  (List.length l <= n)%nat -> keep_last n l = l.
Proof.
  intros Hle. unfold keep_last.
  replace (List.length l - n)%nat with 0%nat by lia. reflexivity.
Qed.

Lemma keep_last_app (A : Type) (n : nat) (l1 l2 : list A) :
  (n <= List.length l2)%nat -> keep_last n (l1 ++ l2) = keep_last n l2.
Proof.
  intros Hle. unfold keep_last.
  rewrite skipn_app, length_app.
  rewrite skipn_all2 by lia. simpl. f_equal. lia.
Qed.

Lemma keep_last_snoc (A : Type) (n : nat) (l : list A) (x : A) :
  keep_last n l ++ [x] = keep_last (S n) (l ++ [x]).
Proof.
  unfold keep_last. rewrite skipn_app, length_app. simpl.
  replace (List.length l + 1 - S n)%nat with (List.length l - n)%nat by lia.
  replace (List.length l - n - List.length l)%nat with 0%nat by lia.
  reflexivity.
Qed.

Lemma keep_last_absorb (A : Type) (n : nat) (l l2 : list A) :
  keep_last n (keep_last n l ++ l2) = keep_last n (l ++ l2).
Proof.
  destruct (Nat.le_gt_cases (List.length l) n) as [Hle | Hgt].
  - rewrite (keep_last_all _ n l) by exact Hle. reflexivity.
  - rewrite <- (firstn_skipn (List.length l - n) l) at 2.
    rewrite <- app_assoc.
    rewrite (keep_last_app _ n (firstn _ l)).
    + reflexivity.
    + rewrite length_app, length_skipn. lia.
Qed.

Lemma addLog_keep_last (t : Z) (text : string) (type : LogType)
  (prev : list LogEntry) :
  addLog t text type prev
  = keep_last 16 (prev ++ [mkLogEntry (JS.toString t) text type]).
Proof.
  unfold addLog. rewrite <- keep_last_snoc.
  f_equal. exact (slice_last _ 14 prev).
Qed.

Lemma addLog_call_keep_last (prev : list LogEntry) (c : LogCall) :
  addLog_call prev c = keep_last 16 (prev ++ [entry_of c]).
Proof. apply addLog_keep_last. Qed.

Lemma addLogs_keep_last (c : LogCall) (calls : list LogCall)
  (prev : list LogEntry) :
  addLogs (c :: calls) prev = keep_last 16 (prev ++ map entry_of (c :: calls)).
Proof.
  unfold addLogs. revert c prev.
  induction calls as [| c' calls IH]; intros c prev.
  - simpl. apply addLog_call_keep_last.
  - change (fold_left addLog_call (c :: c' :: calls) prev)
      with (fold_left addLog_call (c' :: calls) (addLog_call prev c)).
    rewrite IH, addLog_call_keep_last, keep_last_absorb.
    rewrite <- app_assoc. reflexivity.
Qed.

Lemma addLogs_length (calls : list LogCall) (prev : list LogEntry) :
  (List.length prev <= 16)%nat -> (List.length (addLogs calls prev) <= 16)%nat.
Proof.
  destruct calls as [| c calls]; intros Hle.
  - exact Hle.
  - rewrite addLogs_keep_last, keep_last_length. lia.
Qed.

(** C1. Appending an entry yields the previous log followed by the entry,
    cut down to its last 16 elements; a log produced by [addLog] never has
    more than 16 entries, the log that starts with the two boot entries
    never grows beyond 16, and after more than 16 appends the log is exactly
    the last 16 appended entries in the order they were appended. *)
Theorem addLog_ring_buffer :
  forall (prev : list LogEntry) (t : Z) (text : string) (type : LogType),
    addLog t text type prev
    = keep_last LOG_CAPACITY (prev ++ [mkLogEntry (JS.toString t) text type])
    /\ (List.length (addLog t text type prev) <= LOG_CAPACITY)%nat
    /\ (forall calls : list LogCall,
          (List.length (addLogs calls initial_logs) <= LOG_CAPACITY)%nat)
    /\ (forall calls : list LogCall,
          (LOG_CAPACITY < List.length calls)%nat ->
          addLogs calls prev = keep_last LOG_CAPACITY (map entry_of calls)).
Proof.
  intros prev t text type. unfold LOG_CAPACITY.
  split; [apply addLog_keep_last |].
  split; [rewrite addLog_keep_last, keep_last_length; lia |].
  split; [intros calls; apply addLogs_length; simpl; lia |].
  intros [| c calls] Hlen; [simpl in Hlen; lia |].
  rewrite addLogs_keep_last. apply keep_last_app.
  rewrite length_map. lia.
Qed.

(** Seventeen appends to the initial log leave the last sixteen of them. *)
Lemma addLog_ring_buffer_witness :
  addLogs seventeen_calls initial_logs
  = keep_last LOG_CAPACITY (map entry_of seventeen_calls).
Proof.
  apply (addLog_ring_buffer initial_logs 0 EmptyString info).
  vm_compute. lia.
Defined.

(** ** Properties of the metric tick *)

Section Metrics.

Context {R : Rounding}.

Lemma fl_compat (x y : Q) : (x == y)%Q -> (fl x == fl y)%Q.
Proof.
  intros Heq. apply Qle_antisym; apply fl_mono; rewrite Heq; apply Qle_refl.
Qed.

Lemma fl_proper : Proper (Qeq ==> Qeq) fl.
Proof. intros x y Heq. apply fl_compat, Heq. Qed.

#[local] Existing Instance fl_proper.

Lemma is_double_proper : Proper (Qeq ==> iff) is_double.
Proof. intros x y Heq. unfold is_double. rewrite Heq. reflexivity. Qed.

#[local] Existing Instance is_double_proper.

Lemma is_double_int (z : Z) : Z.abs z <= 2 ^ 53 -> is_double (inject_Z z).
Proof. apply fl_int. Qed.

Lemma is_double_fl (x : Q) : is_double (fl x).
Proof. apply fl_idem. Qed.

Lemma is_double_half : is_double (1 # 2).
Proof.
  assert (H1 : is_double 1) by (apply (is_double_int 1); vm_compute; discriminate).
  assert (Hh : is_double (1 / 2)).
  { apply fl_halve; [exact H1 | vm_compute; discriminate]. }
  exact Hh.
Qed.

Lemma is_double_minus_half : is_double (- (1 # 2)).
Proof.
  assert (H1 : is_double (-1)) by (apply (is_double_int (-1)); vm_compute; discriminate).
  assert (Hh : is_double (-1 / 2)).
  { apply fl_halve; [exact H1 | vm_compute; discriminate]. }
  exact Hh.
Qed.

(** Rounding does not leave an interval whose ends are doubles. *)
Lemma fl_between (a b x : Q) :
  is_double a -> is_double b -> (a <= x <= b)%Q -> (a <= fl x <= b)%Q.
Proof.
  intros Ha Hb [Hax Hxb]. unfold is_double in Ha, Hb. split.
  - rewrite <- Ha. apply fl_mono, Hax.
  - rewrite <- Hb. apply fl_mono, Hxb.
Qed.

(** The perturbation [(Math.random() - 0.5) * c] for an integer [c]. *)
Lemma perturbation_range (c : Z) (r : Q) :
  0 < c -> 2 * c <= 2 ^ 53 -> Z.even c = true ->
  (0 <= r)%Q -> (r < 1)%Q ->
  (- inject_Z (c / 2) <= JSMath.mul (JSMath.sub r (1 # 2)) (inject_Z c)
   <= inject_Z (c / 2))%Q.
Proof.
  intros Hc Hbig Heven H0 H1.
  assert (Hc2 : c = 2 * (c / 2)).
  { apply Z.even_spec in Heven. destruct Heven as [k ->].
    rewrite Z.mul_comm, Z.div_mul by lia. lia. }
  set (h := c / 2) in *.
  assert (Hs : (- (1 # 2) <= JSMath.sub r (1 # 2) <= 1 # 2)%Q).
  { unfold JSMath.sub. apply fl_between.
    - apply is_double_minus_half.
    - apply is_double_half.
    - split; lra. }
  unfold JSMath.mul.
  assert (Hq : (inject_Z c == 2 * inject_Z h)%Q).
  { rewrite Hc2 at 1. rewrite inject_Z_mult. reflexivity. }
  assert (Hh : (0 <= inject_Z h)%Q).
  { change 0%Q with (inject_Z 0). rewrite <- Zle_Qle. lia. }
  rewrite <- inject_Z_opp.
  apply fl_between.
  - apply is_double_int. lia.
  - apply is_double_int. lia.
  - rewrite inject_Z_opp, Hq. destruct Hs as [Hlo Hhi]. split; nra.
Qed.

Lemma clamp_bounds (lo hi x : Q) :
  (lo <= hi)%Q -> (lo <= clamp lo hi x <= hi)%Q.
Proof.
  intros Hle. unfold clamp. split.
  - apply Q.min_glb; [exact Hle | apply Q.le_max_l].
  - apply Q.le_min_l.
Qed.

Lemma clamp_cases (lo hi x : Q) :
  (lo <= hi)%Q ->
  ((x <= lo)%Q /\ (clamp lo hi x == lo)%Q)
  \/ ((lo <= x <= hi)%Q /\ (clamp lo hi x == x)%Q)
  \/ ((hi <= x)%Q /\ (clamp lo hi x == hi)%Q).
Proof.
  intros Hle. unfold clamp.
  destruct (Qlt_le_dec x lo) as [Hlt | Hge].
  - left. split; [lra |].
    rewrite (Q.max_l lo x) by lra. apply Q.min_r. exact Hle.
  - destruct (Qlt_le_dec hi x) as [Hgt | Hle'].
    + right; right. split; [lra |].
      rewrite (Q.max_r lo x) by lra. apply Q.min_l. lra.
    + right; left. split; [split; lra |].
      rewrite (Q.max_r lo x) by lra. apply Q.min_r. exact Hle'.
Qed.

Lemma round_int (z : Z) : JSMath.round (inject_Z z) = inject_Z z.
Proof.
  unfold JSMath.round. f_equal.
  unfold Qfloor, inject_Z, Qplus. simpl.
  symmetry. apply (Z.div_unique _ _ _ 1); lia.
Qed.

Lemma round_mono (x y : Q) : (x <= y)%Q -> (JSMath.round x <= JSMath.round y)%Q.
Proof.
  intros Hle. unfold JSMath.round. rewrite <- Zle_Qle.
  apply Qfloor_resp_le. lra.
Qed.

Lemma round_compat (x y : Q) : (x == y)%Q -> JSMath.round x = JSMath.round y.
Proof.
  intros Heq. unfold JSMath.round. f_equal. apply Qfloor_comp.
  rewrite Heq. reflexivity.
Qed.

(** Rounding to the nearest integer and clamping between two integers can be
    done in either order. *)
Lemma round_clamp (lo hi : Z) (x : Q) :
  lo <= hi ->
  (JSMath.round (clamp (inject_Z lo) (inject_Z hi) x)
   == clamp (inject_Z lo) (inject_Z hi) (JSMath.round x))%Q.
Proof.
  intros Hle.
  assert (Hq : (inject_Z lo <= inject_Z hi)%Q) by (rewrite <- Zle_Qle; exact Hle).
  destruct (clamp_cases (inject_Z lo) (inject_Z hi) x Hq)
    as [[Hx Hc] | [[[Hx1 Hx2] Hc] | [Hx Hc]]];
    rewrite (round_compat _ _ Hc).
  - rewrite round_int. apply round_mono in Hx. rewrite round_int in Hx.
    unfold clamp. rewrite (Q.max_l _ _ Hx). symmetry. apply Q.min_r, Hq.
  - apply round_mono in Hx1, Hx2. rewrite round_int in Hx1, Hx2.
    unfold clamp. rewrite (Q.max_r _ _ Hx1). symmetry. apply Q.min_r, Hx2.
  - rewrite round_int. apply round_mono in Hx. rewrite round_int in Hx.
    unfold clamp. rewrite (Q.max_r (inject_Z lo) (JSMath.round x)) by lra.
    symmetry. apply Q.min_l, Hx.
Qed.

(** C2. When [cpuLoad] is in [0, 100] and [flowVel] in [100, 2000], they
    are so again after a tick, whatever the draws; [cpuLoad] is the old value
    plus a perturbation in [-2, 2], clamped to [0, 100], and [flowVel] is the
    old value plus a perturbation in [-40, 40], rounded to the nearest integer
    and clamped to [100, 2000]. *)
Theorem tick_keeps_bounds (d : Draws) (prev : MetricState) :
  (0 <= cpuLoad prev <= 100)%Q ->
  (100 <= flowVel prev <= 2000)%Q ->
  (0 <= cpuLoad (tick d prev) <= 100)%Q
  /\ (100 <= flowVel (tick d prev) <= 2000)%Q
  /\ (cpuLoad (tick d prev)
       == clamp 0 100 (JSMath.add (cpuLoad prev) (perturbation 4 (r_cpu d))))%Q
  /\ (flowVel (tick d prev)
       == clamp 100 2000
            (JSMath.round (JSMath.add (flowVel prev) (perturbation 80 (r_flow d)))))%Q
  /\ ((0 <= r_cpu d)%Q -> (r_cpu d < 1)%Q ->
       (-2 <= perturbation 4 (r_cpu d) <= 2)%Q)
  /\ ((0 <= r_flow d)%Q -> (r_flow d < 1)%Q ->
       (-40 <= perturbation 80 (r_flow d) <= 40)%Q).
Proof.
  intros _ _.
  assert (Hflow : (flowVel (tick d prev)
       == clamp 100 2000
            (JSMath.round (JSMath.add (flowVel prev) (perturbation 80 (r_flow d)))))%Q).
  { exact (round_clamp 100 2000 _ ltac:(lia)). }
  split; [apply (clamp_bounds 0 100); lra |].
  split; [rewrite Hflow; apply (clamp_bounds 100 2000); lra |].
  split; [reflexivity |].
  split; [exact Hflow |].
  split; intros H0 H1.
  - apply (perturbation_range 4 (r_cpu d)); try assumption; try reflexivity.
    vm_compute; discriminate.
  - apply (perturbation_range 80 (r_flow d)); try assumption; try reflexivity.
    vm_compute; discriminate.
Qed.

Lemma scale8_exact (r : Q) :
  is_draw r -> (JSMath.mul r 8 == r * 8)%Q.
Proof.
  intros (H0 & H1 & Hd).
  assert (Hsmall : forall x : Q, (0 <= x <= 4)%Q -> (Qabs x <= inject_Z (2 ^ 53))%Q).
  { intros x [Hx0 Hx4]. rewrite Qabs_pos by exact Hx0.
    apply Qle_trans with (1 := Hx4). vm_compute; discriminate. }
  assert (H2 : is_double (2 * r)) by (apply fl_double; [exact Hd | apply Hsmall; lra]).
  assert (H4 : is_double (2 * (2 * r))) by (apply fl_double; [exact H2 | apply Hsmall; lra]).
  assert (H8 : is_double (2 * (2 * (2 * r)))) by (apply fl_double; [exact H4 | apply Hsmall; lra]).
  unfold JSMath.mul.
  assert (Heq : (r * 8 == 2 * (2 * (2 * r)))%Q) by ring.
  rewrite Heq. exact H8.
Qed.

Lemma views_increment_range (r : Q) :
  is_draw r -> 0 <= views_increment r <= 7.
Proof.
  intros Hr. unfold views_increment.
  pose proof (scale8_exact r Hr) as Heq.
  rewrite (Qfloor_comp _ _ Heq).
  destruct Hr as (H0 & H1 & _). split.
  - rewrite <- (Qfloor_Z 0). apply Qfloor_resp_le. change (inject_Z 0) with 0%Q. lra.
  - assert (Hlt : (inject_Z (Qfloor (r * 8)) < inject_Z 8)%Q).
    { apply Qle_lt_trans with (1 := Qfloor_le (r * 8)).
      change (inject_Z 8) with 8%Q. lra. }
    rewrite <- Zlt_Qlt in Hlt. lia.
Qed.

Lemma tick_views_step (d : Draws) (prev : MetricState) :
  is_double (views prev) -> is_draw (r_views d) ->
  (views prev <= views (tick d prev))%Q /\ is_double (views (tick d prev)).
Proof.
  intros Hv Hr. split; [| apply is_double_fl].
  pose proof (views_increment_range _ Hr) as [Hk _].
  unfold views_increment in Hk.
  simpl. unfold JSMath.add, JSMath.floor.
  unfold is_double in Hv. rewrite <- Hv at 1. apply fl_mono.
  assert (Hq : (0 <= inject_Z (Qfloor (JSMath.mul (r_views d) 8)))%Q).
  { change 0%Q with (inject_Z 0). rewrite <- Zle_Qle. exact Hk. }
  lra.
Qed.

Lemma ticks_views (ds : list Draws) (m : MetricState) :
  is_double (views m) ->
  Forall (fun d => is_draw (r_views d)) ds ->
  (views m <= views (ticks ds m))%Q.
Proof.
  unfold ticks. revert m.
  induction ds as [| d ds IH]; intros m Hv Hall; simpl.
  - apply Qle_refl.
  - inversion Hall as [| d' ds' Hd Hds]; subst.
    destruct (tick_views_step d m Hv Hd) as [Hle Hv'].
    apply Qle_trans with (1 := Hle). apply IH; assumption.
Qed.

(** C6. After a tick [views] is at least what it was before: it is the old
    value plus an integer between 0 and 7; so [views] never decreases along
    a sequence of ticks. *)
Theorem tick_views_nondecreasing (d : Draws) (prev : MetricState) :
  is_double (views prev) ->
  is_draw (r_views d) ->
  (views prev <= views (tick d prev))%Q
  /\ 0 <= views_increment (r_views d) <= 7
  /\ views (tick d prev)
     = JSMath.add (views prev) (inject_Z (views_increment (r_views d)))
  /\ (forall ds : list Draws,
        Forall (fun d' => is_draw (r_views d')) ds ->
        (views prev <= views (ticks ds prev))%Q).
Proof.
  intros Hv Hr.
  split; [apply tick_views_step; assumption |].
  split; [apply views_increment_range; exact Hr |].
  split; [reflexivity |].
  intros ds Hall. apply ticks_views; assumption.
Qed.

End Metrics.

(** The initial metrics stay within their bounds over a tick. *)
Lemma tick_keeps_bounds_witness :
  (0 <= cpuLoad (tick sample_draws initial_metrics) <= 100)%Q
  /\ (100 <= flowVel (tick sample_draws initial_metrics) <= 2000)%Q.
Proof.
  destruct (tick_keeps_bounds sample_draws initial_metrics) as (Hc & Hf & _).
  - split; vm_compute; discriminate.
  - split; vm_compute; discriminate.
  - split; assumption.
Defined.

(** The initial [views] does not decrease over a tick. *)
Lemma tick_views_nondecreasing_witness :
  (views initial_metrics <= views (tick sample_draws initial_metrics))%Q
  /\ 0 <= views_increment (r_views sample_draws) <= 7.
Proof.
  destruct (tick_views_nondecreasing sample_draws initial_metrics) as (Hv & Hk & _).
  - vm_compute. reflexivity.
  - repeat split; vm_compute; try discriminate; reflexivity.
  - split; assumption.
Defined.

(** ** Properties of the step rotator *)

Lemma nextStep_mod (i : Z) : 0 <= i -> nextStep i = (i + 1) mod 4.
Proof.
  intros Hi. unfold nextStep, JS.rem. apply Z.rem_mod_nonneg; lia.
Qed.

Lemma nextStep_iter (n : nat) (i : Z) :
  0 <= i -> Nat.iter n nextStep i = (i + Z.of_nat n) mod 4 \/ n = 0%nat.
Proof.
  intros Hi. induction n as [| n IH]; [right; reflexivity | left].
  simpl Nat.iter. destruct IH as [IH | ->].
  - rewrite IH, nextStep_mod by (apply Z.mod_pos_bound; lia).
    rewrite Zplus_mod_idemp_l. f_equal. lia.
  - simpl. rewrite nextStep_mod by exact Hi. reflexivity.
Qed.

(** C3. For an index among 0, 1, 2, 3 the rotator yields the index plus one
    modulo 4; four advances lead back to the index and fewer do not; and
    after [n] advances from [i] the index is [(i + n) mod 4], so that from 0
    the indices are 0, 1, 2, 3, 0, 1, 2, 3, ... *)
Theorem nextStep_cycle (i : Z) :
  0 <= i <= 3 ->
  nextStep i = (i + 1) mod 4
  /\ Nat.iter 4 nextStep i = i
  /\ (forall k : nat, (0 < k < 4)%nat -> Nat.iter k nextStep i <> i)
  /\ (forall n : nat, Nat.iter n nextStep i = (i + Z.of_nat n) mod 4)
  /\ map (fun n => Nat.iter n nextStep 0) (seq 0 9) = [0; 1; 2; 3; 0; 1; 2; 3; 0].
Proof.
  intros Hi.
  assert (Hcases : i = 0 \/ i = 1 \/ i = 2 \/ i = 3) by lia.
  split; [apply nextStep_mod; lia |].
  split; [destruct Hcases as [-> | [-> | [-> | ->]]]; reflexivity |].
  split.
  - intros k Hk.
    assert (Hk' : k = 1%nat \/ k = 2%nat \/ k = 3%nat) by lia.
    destruct Hcases as [-> | [-> | [-> | ->]]];
      destruct Hk' as [-> | [-> | ->]]; vm_compute; discriminate.
  - split; [| reflexivity].
    intros n. destruct (nextStep_iter n i) as [H | ->]; [lia | exact H |].
    simpl. rewrite Z.add_0_r, Z.mod_small by lia. reflexivity.
Qed.

(** From the last step the rotator goes back to the first. *)
Lemma nextStep_cycle_witness :
  nextStep 3 = 0 /\ Nat.iter 4 nextStep 3 = 3.
Proof.
  destruct (nextStep_cycle 3) as (H1 & H4 & _).
  - lia.
  - split; [exact H1 | exact H4].
Defined.

(** ** Properties of the advisor call *)

Section Advisor.

Context {S : StringOps}.

Lemma insight_of_fallback (response_text : option string) :
  match response_text with
  | None => True
  | Some t => trim t = EmptyString
  end ->
  insight_of response_text = "INSIGHT_FETCH_TIMEOUT"%string.
Proof.
  destruct response_text as [t |]; [| reflexivity].
  intros Ht. unfold insight_of. rewrite Ht, toUpperCase_empty. reflexivity.
Qed.

Lemma insight_of_text (t : string) :
  trim t <> EmptyString ->
  insight_of (Some t) = toUpperCase (trim t).
Proof.
  intros Hne. unfold insight_of, JS.or_else.
  destruct (toUpperCase (trim t)) as [| c s] eqn:Hup; [| reflexivity].
  apply toUpperCase_nonempty in Hup. contradiction.
Qed.

(** What [handleSync] does after the wait, case by case. *)
Lemma handleSync_resume_rejected (reason : string) (t : Z) (w : World) :
  handleSync_resume (Rejected reason) t w
  = (Normal tt,
     {| console := with_isAiLoading false
                     (with_logs (addLog t "AI_GATEWAY_TIMEOUT" error) (console w));
        outbound := outbound w |}).
Proof. reflexivity. Qed.

Lemma handleSync_resume_fulfilled (response_text : option string) (t : Z) (w : World) :
  handleSync_resume (Fulfilled response_text) t w
  = (Normal tt,
     {| console := with_isAiLoading false
                     (with_logs (addLog t (insight_of response_text) ai) (console w));
        outbound := outbound w |}).
Proof. reflexivity. Qed.

(** The handler of a render that saw no request in flight. *)
Lemma handleSync_idle (t : Z) (w : World) :
  handleSync false t w
  = (Normal tt,
     {| console := with_logs (addLog t "REQUESTING_AI_INSIGHT..." ai)
                     (with_isAiLoading true (console w));
        outbound := outbound w ++ [advisor_request] |}).
Proof. destruct w as [s out]. reflexivity. Qed.

(** The handler of a render that saw a request in flight. *)
Lemma handleSync_in_flight (t : Z) (w : World) :
  handleSync true t w = (Normal tt, w).
Proof. reflexivity. Qed.

(** C4, as the code has it. A rejected request (network error, timeout,
    unreadable response) makes the controller append exactly the entry
    "AI_GATEWAY_TIMEOUT" of kind error; a request fulfilled with no text, or
    with text that is empty once trimmed, makes it append exactly the entry
    "INSIGHT_FETCH_TIMEOUT" of kind ai; in every case [handleSync] returns
    normally and the in-flight flag is cleared. *)
Theorem advisor_failure_logged (o : AdvisorOutcome) (t : Z) (w : World) :
  match o with
  | Rejected _ => True
  | Fulfilled None => True
  | Fulfilled (Some text) => trim text = EmptyString
  end ->
  fst (handleSync_resume o t w) = Normal tt
  /\ outbound (snd (handleSync_resume o t w)) = outbound w
  /\ console (snd (handleSync_resume o t w))
     = with_isAiLoading false
         (with_logs
            (match o with
             | Rejected _ => addLog t "AI_GATEWAY_TIMEOUT" error
             | Fulfilled _ => addLog t "INSIGHT_FETCH_TIMEOUT" ai
             end)
            (console w)).
Proof.
  intros Hfail. destruct o as [reason | response_text].
  - rewrite handleSync_resume_rejected. simpl. auto.
  - rewrite handleSync_resume_fulfilled. simpl.
    rewrite (insight_of_fallback response_text) by exact Hfail. auto.
Qed.

(** C10. A request fulfilled with text that is not empty once trimmed makes
    the controller append exactly the entry whose text is the returned text
    trimmed and upper-cased and whose kind is ai. *)
Theorem advisor_success_logged (text : string) (t : Z) (w : World) :
  trim text <> EmptyString ->
  fst (handleSync_resume (Fulfilled (Some text)) t w) = Normal tt
  /\ console (snd (handleSync_resume (Fulfilled (Some text)) t w))
     = with_isAiLoading false
         (with_logs (addLog t (toUpperCase (trim text)) ai) (console w))
  /\ last (logs (console (snd (handleSync_resume (Fulfilled (Some text)) t w))))
          (mkLogEntry EmptyString EmptyString info)
     = mkLogEntry (JS.toString t) (toUpperCase (trim text)) ai.
Proof.
  intros Hne. rewrite handleSync_resume_fulfilled, (insight_of_text text Hne).
  simpl. repeat split. unfold addLog. apply last_last.
Qed.

(** C8, as the code has it. Called while no request is in flight, as the
    handler sees it ([seen] is the [isAiLoading] of its render, which is
    the cell itself when the render is up to date), [handleSync] sets the
    in-flight flag, appends exactly the entry "REQUESTING_AI_INSIGHT..." of
    kind ai, and then sends the request. *)
Theorem request_entry_logged (seen : bool) (t : Z) (w : World) :
  seen = false ->
  handleSync seen t w
  = (Normal tt,
     {| console := with_logs (addLog t "REQUESTING_AI_INSIGHT..." ai)
                     (with_isAiLoading true (console w));
        outbound := outbound w ++ [advisor_request] |})
  /\ last (logs (console (snd (handleSync seen t w))))
          (mkLogEntry EmptyString EmptyString info)
     = mkLogEntry (JS.toString t) "REQUESTING_AI_INSIGHT..." ai.
Proof.
  intros ->. rewrite (handleSync_idle t w).
  split; [reflexivity |]. simpl. unfold addLog. apply last_last.
Qed.

End Advisor.

(** ** Properties of the console as a whole *)

Section Console.

Context {R : Rounding} {S : StringOps}.

Lemma step_SyncClick (w : World) (t : Z) (seen : bool) :
  step w (t, SyncClick seen) = snd (handleSync seen t w).
Proof. reflexivity. Qed.

Lemma step_AdvisorSettled (w : World) (t : Z) (o : AdvisorOutcome) :
  step w (t, AdvisorSettled o) = snd (handleSync_resume o t w).
Proof. reflexivity. Qed.

(** The entry [handleSync] appends once the wait is over. *)
Lemma handleSync_resume_logs (o : AdvisorOutcome) (t : Z) (w : World) :
  exists (text : string) (kind : LogType),
    logs (console (snd (handleSync_resume o t w)))
    = addLog t text kind (logs (console w)).
Proof.
  destruct o as [reason | response_text].
  - exists "AI_GATEWAY_TIMEOUT"%string, error. reflexivity.
  - exists (insight_of response_text), ai. reflexivity.
Qed.

(** A click that reaches the handler of a render that saw the request in
    flight changes nothing. *)
Lemma step_SyncClick_seen (w : World) (t : Z) :
  step w (t, SyncClick true) = w.
Proof. rewrite step_SyncClick, handleSync_in_flight. reflexivity. Qed.

(** Two clicks that reach the handler of one render that saw no request in
    flight: each sends a request and appends a request entry. *)
Lemma two_clicks_one_render (w : World) (t1 t2 : Z) :
  outbound (run [(t1, SyncClick false); (t2, SyncClick false)] w)
  = outbound w ++ [advisor_request; advisor_request]
  /\ logs (console (run [(t1, SyncClick false); (t2, SyncClick false)] w))
     = addLog t2 "REQUESTING_AI_INSIGHT..." ai
         (addLog t1 "REQUESTING_AI_INSIGHT..." ai (logs (console w))).
Proof.
  unfold run. simpl fold_left.
  rewrite !step_SyncClick, !handleSync_idle. simpl.
  rewrite <- app_assoc. split; reflexivity.
Qed.

End Console.

(** ** Identifiers of the log entries *)

Lemma keep_last_keep_last (A : Type) (m n : nat) (l : list A) :
  (m <= n)%nat -> keep_last m (keep_last n l) = keep_last m l.
Proof.
  intros Hmn.
  destruct (Nat.le_gt_cases (List.length l) n) as [Hle | Hgt].
  - rewrite (keep_last_all _ n l Hle). reflexivity.
  - rewrite <- (firstn_skipn (List.length l - n) l) at 2.
    symmetry. apply keep_last_app.
    fold (keep_last n l). rewrite keep_last_length. lia.
Qed.

(** Two entries appended at one clock reading carry the same [id]. *)
Lemma addLog_same_clock (t : Z) (text1 text2 : string) (kind1 kind2 : LogType)
  (prev : list LogEntry) :
  map id (keep_last 2 (addLog t text2 kind2 (addLog t text1 kind1 prev)))
  = [JS.toString t; JS.toString t].
Proof.
  rewrite (addLog_keep_last t text2), (addLog_keep_last t text1).
  rewrite keep_last_absorb, <- app_assoc.
  rewrite keep_last_keep_last by lia.
  rewrite keep_last_app by (simpl; lia).
  reflexivity.
Qed.

(** C7. Two calls of [addLog] at one clock reading give two entries with the
    same [id]: a click on the advisor button whose request is rejected
    within the millisecond leaves the log with a repeated identifier. *)
Theorem ids_repeat_at_one_clock_reading :
  map id (logs (console (run same_clock_events (initial_world sample_clock))))
  = ["1"; "2"; "1730000000000"; "1730000000000"]%string
  /\ ~ NoDup (map id (logs (console (run same_clock_events (initial_world sample_clock))))).
Proof.
  split; [reflexivity |].
  intros Hnd.
  change (NoDup ["1"; "2"; "1730000000000"; "1730000000000"]%string) in Hnd.
  inversion Hnd as [| x1 l1 _ H1]; subst.
  inversion H1 as [| x2 l2 _ H2]; subst.
  inversion H2 as [| x3 l3 Hin _]; subst.
  apply Hin. left. reflexivity.
Qed.

(** C5. Two clicks on the advisor button within one task reach the handler
    of one render, whose [isAiLoading] is false: the second call is no
    no-op, two requests leave and two request entries are appended, where
    the claim has one request and one pair of entries. *)
Theorem two_clicks_in_one_task_send_two_requests :
  outbound (run one_task_clicks (initial_world sample_clock))
  = [advisor_request; advisor_request]
  /\ map text (logs (console (run one_task_clicks (initial_world sample_clock))))
     = ["SYSTEM_BOOT_COMPLETE"; "LISTENING_FOR_INPUT...";
        "REQUESTING_AI_INSIGHT..."; "REQUESTING_AI_INSIGHT..."]%string
  /\ isAiLoading (console (run [(sample_clock, SyncClick false)]
                             (initial_world sample_clock))) = true.
Proof. split; [reflexivity | split; reflexivity]. Qed.

(** A request that returns empty text: the entry appended is
    "INSIGHT_FETCH_TIMEOUT" of kind ai, not "AI_GATEWAY_TIMEOUT" of kind
    error. *)
Lemma empty_text_is_not_gateway_timeout :
  last (logs (console (snd (handleSync_resume (Fulfilled (Some EmptyString))
                             sample_clock (initial_world sample_clock)))))
       (mkLogEntry EmptyString EmptyString info)
  = mkLogEntry "1730000000000" "INSIGHT_FETCH_TIMEOUT" ai
  /\ mkLogEntry "1730000000000" "INSIGHT_FETCH_TIMEOUT" ai
     <> mkLogEntry "1730000000000" "AI_GATEWAY_TIMEOUT" error.
Proof. split; [reflexivity | discriminate]. Qed.

(** The entry appended before the call is of kind ai, not info. *)
Lemma request_entry_is_not_info :
  isAiLoading (console (initial_world sample_clock)) = false
  /\ last (logs (console (snd (handleSync
                                 (isAiLoading (console (initial_world sample_clock)))
                                 sample_clock (initial_world sample_clock)))))
          (mkLogEntry EmptyString EmptyString info)
     = mkLogEntry "1730000000000" "REQUESTING_AI_INSIGHT..." ai
  /\ mkLogEntry "1730000000000" "REQUESTING_AI_INSIGHT..." ai
     <> mkLogEntry "1730000000000" "REQUESTING_AI_INSIGHT..." info.
Proof. split; [reflexivity | split; [reflexivity | discriminate]]. Qed.

(** A rejected request, and a request that returns blanks only. *)
Lemma advisor_failure_logged_witness :
  logs (console (snd (handleSync_resume (Rejected "Failed to fetch")
                        sample_clock (initial_world sample_clock))))
  = initial_logs ++ [mkLogEntry "1730000000000" "AI_GATEWAY_TIMEOUT" error]
  /\ logs (console (snd (handleSync_resume (Fulfilled (Some "  "%string))
                           sample_clock (initial_world sample_clock))))
     = initial_logs ++ [mkLogEntry "1730000000000" "INSIGHT_FETCH_TIMEOUT" ai].
Proof.
  split.
  - destruct (advisor_failure_logged (Rejected "Failed to fetch")
                sample_clock (initial_world sample_clock) I) as (_ & _ & Hc).
    rewrite Hc. reflexivity.
  - destruct (advisor_failure_logged (Fulfilled (Some "  "%string))
                sample_clock (initial_world sample_clock)) as (_ & _ & Hc).
    + reflexivity.
    + rewrite Hc. reflexivity.
Defined.

(** A request that returns text. *)
Lemma advisor_success_logged_witness :
  last (logs (console (snd (handleSync_resume (Fulfilled (Some " all nodes optimized "%string))
                             sample_clock (initial_world sample_clock)))))
       (mkLogEntry EmptyString EmptyString info)
  = mkLogEntry "1730000000000" "ALL NODES OPTIMIZED" ai.
Proof.
  destruct (advisor_success_logged " all nodes optimized "
              sample_clock (initial_world sample_clock)) as (_ & _ & Hl).
  - vm_compute. discriminate.
  - rewrite Hl. reflexivity.
Defined.

(** A click on the advisor button of the console as it starts. *)
Lemma request_entry_logged_witness :
  last (logs (console (snd (handleSync
                              (isAiLoading (console (initial_world sample_clock)))
                              sample_clock (initial_world sample_clock)))))
       (mkLogEntry EmptyString EmptyString info)
  = mkLogEntry "1730000000000" "REQUESTING_AI_INSIGHT..." ai.
Proof.
  destruct (request_entry_logged
              (isAiLoading (console (initial_world sample_clock)))
              sample_clock (initial_world sample_clock)) as (_ & Hl).
  - reflexivity.
  - rewrite Hl. reflexivity.
Defined.

(** ** The definitions at work *)

Example slice_short : JS.slice (-15) [1; 2; 3] = [1; 2; 3].
Proof. reflexivity. Qed.

Example slice_long :
  JS.slice (-15) (map Z.of_nat (seq 0 20)) = map Z.of_nat (seq 5 15).
Proof. reflexivity. Qed.

Example trim_upper :
  toUpperCase (trim "  nodes ok ") = "NODES OK"%string.
Proof. reflexivity. Qed.

Example tick_sample :
  (cpuLoad (tick sample_draws initial_metrics) == 444 # 10)%Q
  /\ (flowVel (tick sample_draws initial_metrics) == 872)%Q
  /\ (views (tick sample_draws initial_metrics) == 14291)%Q
  /\ (conversionRate (tick sample_draws initial_metrics) == 42 # 10)%Q.
Proof. split; [| split; [| split]]; vm_compute; reflexivity. Qed.

Example two_clicks_one_pair :
  map text (logs (console (run
    [(sample_clock, SyncClick false); (sample_clock + 40, SyncClick true);
     (sample_clock + 900, AdvisorSettled (Fulfilled (Some "cache warm"%string)))]
    (initial_world sample_clock))))
  = ["SYSTEM_BOOT_COMPLETE"; "LISTENING_FOR_INPUT..."; "REQUESTING_AI_INSIGHT...";
     "CACHE WARM"]%string.
Proof. reflexivity. Qed.

(** ** Sequences of events *)

Section Traces.

Context {R : Rounding} {S : StringOps}.

Lemma run_cons (te : Z * Event) (es : list (Z * Event)) (w : World) :
  run (te :: es) w = run es (step w te).
Proof. reflexivity. Qed.

Lemma run_app (es1 es2 : list (Z * Event)) (w : World) :
  run (es1 ++ es2) w = run es2 (run es1 w).
Proof. apply fold_left_app. Qed.

(** What one event does to the cells other than the log and the flag. *)
Lemma step_cells (w : World) (te : Z * Event) :
  metrics (console (step w te))
  = match snd te with
    | MetricTimer d => tick d (metrics (console w))
    | _ => metrics (console w)
    end
  /\ activeStep (console (step w te))
     = match snd te with
       | StepTimer => nextStep (activeStep (console w))
       | _ => activeStep (console w)
       end
  /\ selectedStep (console (step w te))
     = match snd te with
       | SelectStep s => Some s
       | ClearSelection => None
       | _ => selectedStep (console w)
       end.
Proof.
  destruct te as [t e]. destruct e; try (repeat split; reflexivity).
  - rewrite step_SyncClick. destruct seen; repeat split; reflexivity.
  - rewrite step_AdvisorSettled. destruct o; repeat split; reflexivity.
Qed.

Lemma run_activeStep (es : list (Z * Event)) (w : World) :
  activeStep (console (run es w))
  = Nat.iter (rotations_of es) nextStep (activeStep (console w)).
Proof.
  revert w. induction es as [| te es IH]; intros w; [reflexivity |].
  rewrite run_cons, IH.
  destruct (step_cells w te) as (_ & Ha1 & _). rewrite Ha1.
  unfold rotations_of.
  destruct te as [t e]; destruct e; simpl; try reflexivity.
  symmetry. apply (Nat.iter_succ_r _ _ nextStep).
Qed.

(** Whatever the order in which the events arrive, the metrics are the ticks
    of the metric timer applied in order, the active step is the rotator
    applied once per rotation, and the selected step is the one the last
    selection click left: clicks and advisor calls never touch the metrics
    or the rotation, and the timers never touch the selection. *)
Theorem cells_follow_their_events (es : list (Z * Event)) (w : World) :
  metrics (console (run es w)) = ticks (draws_of es) (metrics (console w))
  /\ activeStep (console (run es w))
     = Nat.iter (rotations_of es) nextStep (activeStep (console w))
  /\ selectedStep (console (run es w))
     = selection_after es (selectedStep (console w)).
Proof.
  split; [| split; [apply run_activeStep |]].
  - revert w. induction es as [| te es IH]; intros w; [reflexivity |].
    rewrite run_cons, IH.
    destruct (step_cells w te) as (Hm1 & _ & _). rewrite Hm1.
    unfold draws_of, ticks.
    destruct te as [t e]; destruct e; reflexivity.
  - revert w. induction es as [| te es IH]; intros w; [reflexivity |].
    rewrite run_cons, IH.
    destruct (step_cells w te) as (_ & _ & Hs1). rewrite Hs1.
    unfold selection_after.
    destruct te as [t e]; destruct e; reflexivity.
Qed.

(** Selecting a step or closing the overlay changes nothing but the selected
    step: without these events the metrics, the active step, the log, the
    in-flight flag and the requests sent come out the same. *)
Theorem selection_changes_nothing_else (es : list (Z * Event)) (w : World) :
  let w1 := run es w in
  let w2 := run (filter (fun te => negb (is_selection te)) es) w in
  metrics (console w1) = metrics (console w2)
  /\ activeStep (console w1) = activeStep (console w2)
  /\ logs (console w1) = logs (console w2)
  /\ isAiLoading (console w1) = isAiLoading (console w2)
  /\ now (console w1) = now (console w2)
  /\ outbound w1 = outbound w2.
Proof.
  cbv zeta.
  assert (Hgen : forall (es : list (Z * Event)) (wa wb : World),
    metrics (console wa) = metrics (console wb) ->
    activeStep (console wa) = activeStep (console wb) ->
    logs (console wa) = logs (console wb) ->
    isAiLoading (console wa) = isAiLoading (console wb) ->
    now (console wa) = now (console wb) ->
    outbound wa = outbound wb ->
    let w1 := run es wa in
    let w2 := run (filter (fun te => negb (is_selection te)) es) wb in
    metrics (console w1) = metrics (console w2)
    /\ activeStep (console w1) = activeStep (console w2)
    /\ logs (console w1) = logs (console w2)
    /\ isAiLoading (console w1) = isAiLoading (console w2)
    /\ now (console w1) = now (console w2)
    /\ outbound w1 = outbound w2).
  { clear es w. intros es.
    induction es as [| te es IH]; intros wa wb Hm Ha Hl Hf Hn Ho; cbv zeta.
    - simpl. auto 10.
    - destruct te as [t e].
      destruct e; simpl filter; rewrite ?run_cons;
        apply IH; unfold step; simpl;
        try (destruct seen; simpl);
        try (destruct o; simpl);
        congruence. }
  apply Hgen; reflexivity.
Qed.

End Traces.

(** ** The state stays in range *)

Section Ranges.

Context {R : Rounding} {S : StringOps}.

#[local] Existing Instance fl_proper.

Lemma initial_state_within_bounds (start : Z) :
  within_bounds (initial_state start).
Proof.
  unfold within_bounds, initial_state, initial_metrics. simpl.
  split.
  - apply fl_between.
    + apply (is_double_int 0). vm_compute; discriminate.
    + apply (is_double_int 100). vm_compute; discriminate.
    + split; vm_compute; discriminate.
  - split; [exists 892; split; [reflexivity | lia] |].
    split; lia.
Qed.

Lemma tick_within (d : Draws) (m : MetricState) :
  (0 <= cpuLoad (tick d m) <= 100)%Q
  /\ exists z : Z, flowVel (tick d m) = inject_Z z /\ 100 <= z <= 2000.
Proof.
  split; [apply (clamp_bounds 0 100); lra |].
  eexists. split; [reflexivity |].
  pose proof (round_clamp 100 2000
    (JSMath.add (flowVel m) (JSMath.mul (JSMath.sub (r_flow d) (1 # 2)) 80))
    ltac:(lia)) as Hrc.
  pose proof (clamp_bounds 100 2000
    (JSMath.round (JSMath.add (flowVel m)
       (JSMath.mul (JSMath.sub (r_flow d) (1 # 2)) 80)))
    ltac:(lra)) as [Hlo Hhi].
  rewrite <- Hrc in Hlo, Hhi.
  unfold JSMath.round in Hlo, Hhi.
  change 100%Q with (inject_Z 100) in Hlo.
  change 2000%Q with (inject_Z 2000) in Hhi.
  rewrite <- Zle_Qle in Hlo, Hhi.
  split; [exact Hlo | exact Hhi].
Qed.

Lemma step_within_bounds (w : World) (te : Z * Event) :
  within_bounds (console w) -> within_bounds (console (step w te)).
Proof.
  intros (Hc & Hf & Ha & Hl).
  destruct (step_cells w te) as (Hm1 & Ha1 & _).
  unfold within_bounds. rewrite Hm1, Ha1.
  assert (Hlogs : (List.length (logs (console (step w te))) <= 16)%nat).
  { destruct te as [t e]; destruct e; try exact Hl.
    - change (List.length (addLog t "INITIATING_CAMPAIGN_SEQUENCE..." info
                             (logs (console w))) <= 16)%nat.
      rewrite addLog_keep_last, keep_last_length. lia.
    - rewrite step_SyncClick. destruct seen; [exact Hl |].
      change (List.length (addLog t "REQUESTING_AI_INSIGHT..." ai
                             (logs (console w))) <= 16)%nat.
      rewrite addLog_keep_last, keep_last_length. lia.
    - destruct (handleSync_resume_logs o t w) as (text & kind & Hlogs).
      rewrite step_AdvisorSettled, Hlogs, addLog_keep_last, keep_last_length. lia. }
  destruct te as [t e]; destruct e; simpl snd;
    try (split; [exact Hc | split; [exact Hf | split; [exact Ha | exact Hlogs]]]).
  - destruct (tick_within d (metrics (console w))) as [Hc' Hf'].
    split; [exact Hc' | split; [exact Hf' | split; [exact Ha | exact Hlogs]]].
  - split; [exact Hc | split; [exact Hf | split; [| exact Hlogs]]].
    rewrite nextStep_mod by lia.
    assert (Hb : 0 <= (activeStep (console w) + 1) mod 4 < 4)
      by (apply Z.mod_pos_bound; lia).
    lia.
Qed.

(** A console whose [cpuLoad] is in [0, 100], whose [flowVel] is a whole
    number in [100, 2000], whose active step is among 0, 1, 2, 3 and whose
    log has at most 16 entries is so again after any sequence of events;
    the console starts that way. *)
Theorem run_within_bounds (es : list (Z * Event)) (w : World) :
  within_bounds (console w) ->
  within_bounds (console (run es w))
  /\ forall start : Z, within_bounds (console (run es (initial_world start))).
Proof.
  assert (Hgen : forall (es' : list (Z * Event)) (w' : World),
            within_bounds (console w') -> within_bounds (console (run es' w'))).
  { intros es'. induction es' as [| te es' IH]; intros w' Hw; [exact Hw |].
    rewrite run_cons. apply IH, step_within_bounds, Hw. }
  intros Hw. split; [apply Hgen, Hw |].
  intros start. apply Hgen. apply initial_state_within_bounds.
Qed.

(** With the active step among 0, 1, 2, 3, after any sequence of events it is
    the old one plus the number of rotations, modulo 4, whatever else
    happened in between; and exactly one of the four workflow items is shown
    as active, the one at that position. *)
Theorem one_item_active (es : list (Z * Event)) (w : World) :
  0 <= activeStep (console w) <= 3 ->
  let s := console (run es w) in
  activeStep s = (activeStep (console w) + Z.of_nat (rotations_of es)) mod 4
  /\ count_occ Bool.bool_dec (active_flags s) true = 1%nat
  /\ nth (Z.to_nat (activeStep s)) (active_flags s) false = true.
Proof.
  intros Ha s.
  pose proof (run_activeStep es w) as Hact.
  assert (Hpos : activeStep s
                 = (activeStep (console w) + Z.of_nat (rotations_of es)) mod 4).
  { unfold s. rewrite Hact.
    destruct (nextStep_iter (rotations_of es) (activeStep (console w)))
      as [H | Hz]; [lia | exact H |].
    rewrite Hz. simpl. rewrite Z.add_0_r, Z.mod_small by lia. reflexivity. }
  split; [exact Hpos |].
  assert (Hr : 0 <= activeStep s < 4) by (rewrite Hpos; apply Z.mod_pos_bound; lia).
  unfold active_flags, isActive.
  assert (Hc : activeStep s = 0 \/ activeStep s = 1 \/ activeStep s = 2
               \/ activeStep s = 3) by lia.
  destruct Hc as [-> | [-> | [-> | ->]]]; split; reflexivity.
Qed.

(** With [cpuLoad] in [0, 100] and [flowVel] in [100, 2000], both bars get a
    width between 0 and 100, and the cap at 100 in [MetricBar] leaves the
    progress it is given as it is. *)
Theorem bars_within_track (m : MetricState) :
  (0 <= cpuLoad m <= 100)%Q ->
  (100 <= flowVel m <= 2000)%Q ->
  (MetricBar_width (cpu_progress m) == cpuLoad m)%Q
  /\ (0 <= MetricBar_width (cpu_progress m) <= 100)%Q
  /\ (MetricBar_width (throughput_progress m) == throughput_progress m)%Q
  /\ (0 <= MetricBar_width (throughput_progress m) <= 100)%Q.
Proof.
  intros [Hc0 Hc1] [Hf0 Hf1].
  assert (Hq : (0 <= fl (flowVel m / 2000) <= 1)%Q).
  { apply fl_between.
    - apply (is_double_int 0). vm_compute; discriminate.
    - apply (is_double_int 1). vm_compute; discriminate.
    - split.
      + apply Qle_shift_div_l; lra.
      + apply Qle_shift_div_r; lra. }
  assert (Ht : (0 <= throughput_progress m <= 100)%Q).
  { unfold throughput_progress, JSMath.mul. apply fl_between.
    - apply (is_double_int 0). vm_compute; discriminate.
    - apply (is_double_int 100). vm_compute; discriminate.
    - destruct Hq. split; lra. }
  unfold MetricBar_width, cpu_progress, JSMath.min.
  assert (Hmc : (Qmin 100 (cpuLoad m) == cpuLoad m)%Q) by (apply Q.min_r; exact Hc1).
  assert (Hmt : (Qmin 100 (throughput_progress m) == throughput_progress m)%Q)
    by (apply Q.min_r; apply Ht).
  rewrite Hmc, Hmt. repeat split; try reflexivity; tauto.
Qed.

End Ranges.

(** ** More on the numbers of a tick *)

Section Numbers.

Context {R : Rounding}.

#[local] Existing Instance fl_proper.

(** The delay before the next tick is between one and two seconds. *)
Lemma tick_delay_range (r : Q) :
  (0 <= r)%Q -> (r < 1)%Q ->
  (1000 <= tick_delay r <= 2000)%Q.
Proof.
  intros H0 H1.
  assert (Hm : (0 <= JSMath.mul r 1000 <= 1000)%Q).
  { unfold JSMath.mul. apply fl_between.
    - apply (is_double_int 0). vm_compute; discriminate.
    - apply (is_double_int 1000). vm_compute; discriminate.
    - split; lra. }
  unfold tick_delay, JSMath.add. apply fl_between.
  - apply (is_double_int 1000). vm_compute; discriminate.
  - apply (is_double_int 2000). vm_compute; discriminate.
  - destruct Hm. split; lra.
Qed.

Lemma tick_views_whole (d : Draws) (m : MetricState) (v : Z) :
  is_draw (r_views d) ->
  (views m == inject_Z v)%Q -> 0 <= v -> v + 7 <= 2 ^ 53 ->
  exists v' : Z,
    (views (tick d m) == inject_Z v')%Q /\ v <= v' <= v + 7.
Proof.
  intros Hr Hv H0 Hbig.
  pose proof (views_increment_range _ Hr) as Hk.
  exists (v + views_increment (r_views d)). split; [| lia].
  change (views (tick d m))
    with (fl (views m + inject_Z (views_increment (r_views d)))).
  rewrite Hv, <- inject_Z_plus.
  apply fl_int. lia.
Qed.

(** Starting from a whole number [v] of views, after [n] ticks the views are
    again a whole number, between [v] and [v + 7 n], as long as this stays
    within the integers a double holds exactly. *)
Theorem views_whole_and_bounded (ds : list Draws) (m : MetricState) (v : Z) :
  Forall (fun d => is_draw (r_views d)) ds ->
  (views m == inject_Z v)%Q ->
  0 <= v ->
  v + 7 * Z.of_nat (List.length ds) <= 2 ^ 53 ->
  exists v' : Z,
    (views (ticks ds m) == inject_Z v')%Q
    /\ v <= v' <= v + 7 * Z.of_nat (List.length ds).
Proof.
  unfold ticks. revert m v.
  induction ds as [| d ds IH]; intros m v Hall Hv H0 Hbig.
  - exists v. simpl. split; [exact Hv | lia].
  - inversion Hall as [| d' ds' Hd Hds]; subst.
    simpl List.length in Hbig. 
    destruct (tick_views_whole d m v Hd Hv H0) as (v1 & Hv1 & Hr1); [lia |].
    destruct (IH (tick d m) v1 Hds Hv1) as (v2 & Hv2 & Hr2); [lia | lia |].
    exists v2. split; [exact Hv2 |]. simpl List.length. lia.
Qed.

Lemma nearest_hundredth (x : Q) :
  (0 <= x)%Q ->
  (Qabs (inject_Z (Qfloor (x * 100 + (1 # 2))) / 100 - x) <= 1 # 200)%Q.
Proof.
  intros Hx.
  set (n := Qfloor (x * 100 + (1 # 2))).
  pose proof (Qfloor_le (x * 100 + (1 # 2))) as Hlo.
  pose proof (Qlt_floor (x * 100 + (1 # 2))) as Hhi.
  fold n in Hlo, Hhi. rewrite inject_Z_plus in Hhi.
  change (inject_Z 1) with 1%Q in Hhi.
  apply Qabs_Qle_condition.
  assert (Hd : (inject_Z n / 100 == inject_Z n * (1 # 100))%Q) by reflexivity.
  rewrite Hd. split; lra.
Qed.

(** The new [conversionRate] is the double of a whole number of hundredths
    that lies within half a hundredth of the perturbed value. *)
Theorem conversionRate_two_decimals (d : Draws) (prev : MetricState) :
  exists n : Z,
    (conversionRate (tick d prev) == fl (inject_Z n / 100))%Q
    /\ (Qabs (inject_Z n / 100
              - JSMath.add (conversionRate prev)
                  (perturbation (fl (15 # 100)) (r_conv d))) <= 1 # 200)%Q.
Proof.
  set (x := JSMath.add (conversionRate prev)
              (perturbation (fl (15 # 100)) (r_conv d))).
  change (conversionRate (tick d prev)) with (JSMath.toFixed2 x).
  unfold JSMath.toFixed2.
  destruct (Qle_bool 0 x) eqn:Hsign.
  - apply Qle_bool_iff in Hsign.
    exists (Qfloor (x * 100 + (1 # 2))). split; [reflexivity |].
    apply nearest_hundredth, Hsign.
  - assert (Hneg : (0 <= - x)%Q).
    { destruct (Qlt_le_dec x 0) as [Hlt | Hge]; [lra |].
      apply Qle_bool_iff in Hge. congruence. }
    exists (- Qfloor (- x * 100 + (1 # 2))). split.
    + apply fl_compat. rewrite inject_Z_opp.
      unfold Qdiv. ring.
    + pose proof (nearest_hundredth (- x) Hneg) as Hn.
      apply Qabs_Qle_condition in Hn. apply Qabs_Qle_condition.
      rewrite inject_Z_opp.
      assert (Hd : forall q : Q, (q / 100 == q * (1 # 100))%Q) by (intros; reflexivity).
      rewrite Hd in *. destruct Hn as [Hn1 Hn2]. split; lra.
Qed.

End Numbers.

(** ** Requests in flight *)

Section InFlight.

Context {R : Rounding} {S : StringOps}.

(** What one event does to the requests sent and to the in-flight flag. *)
Lemma step_flight (w : World) (te : Z * Event) :
  match snd te with
  | SyncClick true => step w te = w
  | SyncClick false =>
      outbound (step w te) = outbound w ++ [advisor_request]
      /\ isAiLoading (console (step w te)) = true
  | AdvisorSettled _ =>
      outbound (step w te) = outbound w
      /\ isAiLoading (console (step w te)) = false
  | _ =>
      outbound (step w te) = outbound w
      /\ isAiLoading (console (step w te)) = isAiLoading (console w)
  end.
Proof.
  destruct te as [t e]. destruct e; simpl snd; try (split; reflexivity).
  - destruct seen.
    + apply step_SyncClick_seen.
    + rewrite step_SyncClick, handleSync_idle. split; reflexivity.
  - rewrite step_AdvisorSettled. destruct o; split; reflexivity.
Qed.

Lemma run_flight (es : list (Z * Event)) (w : World) (n : nat) :
  List.length (outbound w)
  = (n + if isAiLoading (console w) then 1 else 0)%nat ->
  clicks_see_state es w = true ->
  answers_requests es w n = true ->
  List.length (outbound (run es w))
  = (n + settled_of es + if isAiLoading (console (run es w)) then 1 else 0)%nat.
Proof.
  revert w n. induction es as [| te es IH]; intros w n Hinv Hsee Hok.
  - simpl. unfold settled_of. simpl. lia.
  - rewrite run_cons.
    pose proof (step_flight w te) as Hstep.
    simpl in Hsee. apply andb_prop in Hsee. destruct Hsee as [Hte Hsee].
    destruct te as [t e].
    destruct e; simpl snd in Hstep, Hte; simpl in Hok;
      try (destruct Hstep as [Ho Hf];
           rewrite (IH _ n);
           [reflexivity | rewrite Ho, Hf; exact Hinv | exact Hsee | exact Hok]).
    + apply Bool.eqb_prop in Hte. destruct seen.
      * rewrite Hstep in *.
        rewrite (IH w n); [reflexivity | exact Hinv | exact Hsee | exact Hok].
      * destruct Hstep as [Ho Hf].
        rewrite (IH _ n); [reflexivity | | exact Hsee | exact Hok].
        rewrite Ho, Hf, length_app. rewrite <- Hte in Hinv. simpl. lia.
    + destruct Hstep as [Ho Hf].
      apply andb_prop in Hok. destruct Hok as [Hlt Hok].
      apply Nat.ltb_lt in Hlt.
      destruct (isAiLoading (console w)); [| lia].
      rewrite (IH _ (Datatypes.S n)); [| rewrite Ho, Hf; lia | exact Hsee | exact Hok].
      unfold settled_of. simpl. lia.
Qed.

(** From an idle console that has sent nothing, with every click on the
    advisor button reaching a handler whose render is up to date and every
    answer answering a request still open, the requests sent are the
    requests answered, plus one exactly when the in-flight flag is set:
    there are never two requests open, and the flag is set exactly while
    one is. *)
Theorem one_request_in_flight (es : list (Z * Event)) (w : World) :
  isAiLoading (console w) = false ->
  outbound w = [] ->
  clicks_see_state es w = true ->
  answers_requests es w 0 = true ->
  List.length (outbound (run es w))
  = (settled_of es + if isAiLoading (console (run es w)) then 1 else 0)%nat.
Proof.
  intros Hidle Hnone Hsee Hok.
  rewrite (run_flight es w 0); [reflexivity | | exact Hsee | exact Hok].
  rewrite Hidle, Hnone. reflexivity.
Qed.

End InFlight.

(** ** Distinct identifiers *)

Lemma to_int_not_nil (z : Z) :
  Z.to_int z <> Decimal.Pos Decimal.Nil /\ Z.to_int z <> Decimal.Neg Decimal.Nil.
Proof.
  split; intros Hnil;
    pose proof (DecimalZ.of_to z) as Hz; rewrite Hnil in Hz;
    simpl in Hz; subst z; discriminate.
Qed.

Lemma toString_inj (a b : Z) : JS.toString a = JS.toString b -> a = b.
Proof.
  unfold JS.toString. intros Heq.
  destruct (to_int_not_nil a) as [Ha1 Ha2].
  destruct (to_int_not_nil b) as [Hb1 Hb2].
  pose proof (NilZero.isi (Z.to_int a) Ha1 Ha2) as Hia.
  pose proof (NilZero.isi (Z.to_int b) Hb1 Hb2) as Hib.
  rewrite Heq in Hia. rewrite Hia in Hib.
  apply DecimalZ.to_int_inj. congruence.
Qed.

Lemma NoDup_keep_last (A : Type) (n : nat) (l : list A) :
  NoDup l -> NoDup (keep_last n l).
Proof.
  intros Hnd. unfold keep_last.
  rewrite <- (firstn_skipn (List.length l - n) l) in Hnd.
  exact (NoDup_app_remove_l _ _ Hnd).
Qed.

Lemma keep_last_map (A B : Type) (f : A -> B) (n : nat) (l : list A) :
  map f (keep_last n l) = keep_last n (map f l).
Proof. unfold keep_last. rewrite length_map. symmetry. apply skipn_map. Qed.

Lemma NoDup_clock_ids (calls : list LogCall) :
  NoDup (map call_now calls) -> NoDup (map id (map entry_of calls)).
Proof.
  induction calls as [| c calls IH]; intros Hnd; simpl.
  - constructor.
  - inversion Hnd as [| x l Hnotin Hrest]; subst.
    constructor; [| apply IH, Hrest].
    intros Hin. apply Hnotin.
    rewrite map_map in Hin. apply in_map_iff in Hin.
    destruct Hin as (c' & Heq & Hc').
    simpl in Heq. apply toString_inj in Heq.
    rewrite <- Heq. apply in_map, Hc'.
Qed.

(** When the log holds distinct identifiers and entries are appended at
    clock readings that differ from one another and whose decimal form is
    no identifier of the log, the identifiers in the log are distinct. *)
Theorem ids_distinct_at_distinct_clocks (calls : list LogCall)
  (prev : list LogEntry) :
  NoDup (map id prev) ->
  NoDup (map call_now calls) ->
  (forall c : LogCall, In c calls -> ~ In (JS.toString (call_now c)) (map id prev)) ->
  NoDup (map id (addLogs calls prev)).
Proof.
  intros Hprev Hclocks Hfresh.
  destruct calls as [| c calls]; [exact Hprev |].
  rewrite addLogs_keep_last, keep_last_map.
  apply NoDup_keep_last. rewrite map_app.
  apply NoDup_app; [exact Hprev | apply NoDup_clock_ids, Hclocks |].
  intros i Hi Hin.
  rewrite map_map in Hin. apply in_map_iff in Hin.
  destruct Hin as (c' & Heq & Hc'). simpl in Heq. subst i.
  exact (Hfresh c' Hc' Hi).
Qed.

(** ** The timers *)

Section TimerLoops.

Context {R : Rounding} {S : StringOps}.

Import Timers.

Lemma armed_shape (rt : Runtime) :
  armed rt ->
  exists (hm hs : Z) (dm : Q),
    hm <> hs /\ hm < fresh rt /\ hs < fresh rt
    /\ metricsTimeoutId rt = Some hm
    /\ stepsTimeoutId rt = Some hs
    /\ (queue rt = [mkTimeout hm dm cb_updateSystem; mkTimeout hs 8000 cb_nextStep]
        \/ queue rt = [mkTimeout hs 8000 cb_nextStep; mkTimeout hm dm cb_updateSystem]).
Proof.
  intros (hm & hs & dm & Hne & Hm & Hs & Hmid & Hsid & Hlen & Hinm & Hins).
  exists hm, hs, dm. repeat (split; [assumption |]).
  destruct (queue rt) as [| a [| b [| c q]]]; try discriminate.
  simpl in Hinm, Hins.
  destruct Hinm as [-> | [-> | []]]; destruct Hins as [Hb | [Hb | []]];
    try discriminate Hb; subst; auto.
Qed.

Lemma eqb_refl_false (a b : Z) : a <> b -> (a =? b) = false.
Proof. intros Hne. apply Z.eqb_neq, Hne. Qed.

Lemma mount_armed (t : Z) (d : Draws) (r : Q) (rt : Runtime) :
  queue rt = [] -> armed (mount t d r rt).
Proof.
  intros Hq. unfold armed, mount, updateSystem_loop, setTimeout. simpl.
  rewrite Hq.
  exists (fresh rt), (fresh rt + 1), (tick_delay r).
  repeat split; simpl; try lia; auto.
Qed.

Lemma fire_armed (h t : Z) (d : Draws) (r : Q) (rt : Runtime) :
  armed rt -> armed (fire h t d r rt).
Proof.
  intros Harmed.
  destruct (armed_shape rt Harmed)
    as (hm & hs & dm & Hne & Hm & Hs & Hmid & Hsid & Hq).
  assert (Hsm : (hs =? hm) = false) by (apply eqb_refl_false; congruence).
  assert (Hms : (hm =? hs) = false) by (apply eqb_refl_false; congruence).
  unfold fire.
  destruct (Z.eq_dec h hm) as [-> | Hhm];
    [| destruct (Z.eq_dec h hs) as [-> | Hhs]].
  - (* the timer of [updateSystem] fires *)
    destruct Hq as [Hq | Hq]; rewrite Hq; simpl;
      rewrite ?Z.eqb_refl, ?Hsm; simpl;
      rewrite ?Z.eqb_refl, ?Hsm; simpl;
      exists (fresh rt), hs, (tick_delay r);
      (split; [lia |]); repeat split; simpl; try lia; auto.
  - (* the timer of [nextStep] fires *)
    destruct Hq as [Hq | Hq]; rewrite Hq; simpl;
      rewrite ?Z.eqb_refl, ?Hms; simpl;
      rewrite ?Z.eqb_refl, ?Hms; simpl;
      exists hm, (fresh rt), dm;
      (split; [lia |]); repeat split; simpl; try lia; auto.
  - (* no such timer *)
    assert (H1 : (hm =? h) = false) by (apply eqb_refl_false; congruence).
    assert (H2 : (hs =? h) = false) by (apply eqb_refl_false; congruence).
    destruct Hq as [Hq | Hq]; rewrite Hq; simpl; rewrite H1, H2; exact Harmed.
Qed.

Lemma occur_armed (rt : Runtime) (o : Occurrence) :
  armed rt -> armed (occur rt o).
Proof.
  intros Harmed. destruct o as [h t d r | t e].
  - apply fire_armed, Harmed.
  - exact Harmed.
Qed.

Lemma occur_all_armed (os : list Occurrence) (rt : Runtime) :
  armed rt -> armed (occur_all os rt).
Proof.
  unfold occur_all. revert rt.
  induction os as [| o os IH]; intros rt Harmed; [exact Harmed |].
  simpl. apply IH, occur_armed, Harmed.
Qed.

Lemma unmount_armed (rt : Runtime) : armed rt -> queue (unmount rt) = [].
Proof.
  intros Harmed.
  destruct (armed_shape rt Harmed)
    as (hm & hs & dm & Hne & Hm & Hs & Hmid & Hsid & Hq).
  assert (Hsm : (hs =? hm) = false) by (apply eqb_refl_false; congruence).
  assert (Hms : (hm =? hs) = false) by (apply eqb_refl_false; congruence).
  unfold unmount. rewrite Hmid. simpl. rewrite Hsid. simpl.
  destruct Hq as [Hq | Hq]; rewrite Hq; simpl;
    rewrite ?Z.eqb_refl, ?Hsm, ?Hms; simpl;
    rewrite ?Z.eqb_refl, ?Hsm, ?Hms; reflexivity.
Qed.

Lemma fire_idle (h t : Z) (d : Draws) (r : Q) (rt : Runtime) :
  queue rt = [] -> fire h t d r rt = rt.
Proof. intros Hq. unfold fire. rewrite Hq. reflexivity. Qed.

(** Once the component is mounted, and whatever fires or is clicked after
    that, exactly two timers are set: the one that calls [updateSystem] and
    the one that calls [nextStep] after 8000 ms, and they are the ones the
    cleanups hold.  So unmounting clears every timer, and afterwards no
    timer callback runs: a timer that would fire changes nothing. *)
Theorem timers_armed_then_cleared (t : Z) (d : Draws) (r : Q)
  (os : list Occurrence) (rt0 : Runtime) :
  queue rt0 = [] ->
  let rt := occur_all os (mount t d r rt0) in
  armed rt
  /\ queue (unmount rt) = []
  /\ world (unmount rt) = world rt
  /\ (forall (h t' : Z) (d' : Draws) (r' : Q),
        fire h t' d' r' (unmount rt) = unmount rt).
Proof.
  intros Hq rt.
  assert (Harmed : armed rt) by (apply occur_all_armed, mount_armed, Hq).
  split; [exact Harmed |].
  split; [apply unmount_armed, Harmed |].
  split.
  - unfold unmount, clearTimeout.
    destruct (metricsTimeoutId rt); simpl;
      destruct (stepsTimeoutId rt); reflexivity.
  - intros h t' d' r'. apply fire_idle, unmount_armed, Harmed.
Qed.

(** The timers a firing sets: 8000 ms for [nextStep], between one and two
    seconds for [updateSystem]. *)
Lemma fire_sets_bounded_delays (h t : Z) (d : Draws) (r : Q) (rt : Runtime) :
  (0 <= r)%Q -> (r < 1)%Q ->
  forall x : Timeout,
    In x (queue (fire h t d r rt)) ->
    In x (queue rt)
    \/ (callback x = cb_updateSystem /\ (1000 <= delay x <= 2000)%Q)
    \/ (callback x = cb_nextStep /\ delay x = 8000%Q).
Proof.
  intros H0 H1 x Hin. unfold fire in Hin.
  destruct (find (fun y => handle y =? h) (queue rt)) as [y |]; [| left; exact Hin].
  destruct (callback y); simpl in Hin; apply in_app_or in Hin;
    destruct Hin as [Hin | [<- | []]].
  - left. unfold without in Hin. apply filter_In in Hin. tauto.
  - right; left. split; [reflexivity |]. apply tick_delay_range; assumption.
  - left. unfold without in Hin. apply filter_In in Hin. tauto.
  - right; right. split; reflexivity.
Qed.

Lemma occur_delays_ok (rt : Runtime) (o : Occurrence) :
  draw_in_range o -> delays_ok rt -> delays_ok (occur rt o).
Proof.
  intros Hdraw Hok. destruct o as [h t d r | t e]; [| exact Hok].
  destruct Hdraw as [H0 H1]. intros x Hin.
  destruct (fire_sets_bounded_delays h t d r rt H0 H1 x Hin) as [Hold | Hnew].
  - apply Hok, Hold.
  - exact Hnew.
Qed.

(** With draws in [0, 1), every timer set after the component is mounted,
    whatever fired or was clicked since, is a timer of [updateSystem] with a
    delay between 1000 and 2000 ms or a timer of [nextStep] with a delay of
    8000 ms. *)
Theorem timer_delays_in_range (t : Z) (d : Draws) (r : Q)
  (os : list Occurrence) (rt0 : Runtime) :
  queue rt0 = [] ->
  (0 <= r)%Q -> (r < 1)%Q ->
  Forall draw_in_range os ->
  delays_ok (occur_all os (mount t d r rt0)).
Proof.
  intros Hq H0 H1 Hall.
  assert (Hmount : delays_ok (mount t d r rt0)).
  { intros x Hin. unfold mount, updateSystem_loop, setTimeout in Hin.
    simpl in Hin. rewrite Hq in Hin. simpl in Hin.
    destruct Hin as [<- | [<- | []]].
    - left. split; [reflexivity |]. apply tick_delay_range; assumption.
    - right. split; reflexivity. }
  unfold occur_all. revert Hmount. generalize (mount t d r rt0).
  induction Hall as [| o os Ho Hos IH]; intros rt Hok; [exact Hok |].
  simpl. apply IH, occur_delays_ok; assumption.
Qed.

End TimerLoops.

(** ** The wait for the advisor *)

Section Waiting.

Context {R : Rounding} {S : StringOps}.

Lemma keep_last_app_short (A : Type) (n : nat) (l1 l2 : list A) :
  (List.length l2 <= n)%nat ->
  keep_last n (l1 ++ l2) = keep_last (n - List.length l2) l1 ++ l2.
Proof.
  intros Hle. unfold keep_last. rewrite skipn_app, length_app.
  replace (List.length l1 + List.length l2 - n - List.length l1)%nat
    with 0%nat by lia.
  simpl. f_equal. f_equal. lia.
Qed.

Lemma addLogs_app (cs1 cs2 : list LogCall) (l : list LogEntry) :
  addLogs (cs1 ++ cs2) l = addLogs cs2 (addLogs cs1 l).
Proof. apply fold_left_app. Qed.

(** While a request is in flight, none comes back, and every click on the
    advisor button reaches a handler whose render is up to date, only the
    deploy button writes to the log. *)
Lemma run_waiting (es : list (Z * Event)) (w : World) :
  isAiLoading (console w) = true ->
  no_settlement es = true ->
  clicks_see_state es w = true ->
  logs (console (run es w)) = addLogs (deploy_calls es) (logs (console w))
  /\ isAiLoading (console (run es w)) = true
  /\ outbound (run es w) = outbound w.
Proof.
  revert w. induction es as [| te es IH]; intros w Hflag Hno Hsee.
  - split; [reflexivity | split; [exact Hflag | reflexivity]].
  - rewrite run_cons. simpl in Hno. apply andb_prop in Hno.
    destruct Hno as [Hte Hno].
    simpl in Hsee. apply andb_prop in Hsee. destruct Hsee as [Hseen Hsee].
    destruct te as [t e]. destruct e; simpl in Hte; try discriminate;
      try (match goal with
           | |- context [run es (step w ?te)] =>
               destruct (IH (step w te)) as (Hl & Hf & Ho);
               [exact Hflag | exact Hno | exact Hsee |]
           end;
           rewrite Hl, Hf, Ho; repeat split; reflexivity).
    simpl snd in Hseen. apply Bool.eqb_prop in Hseen.
    rewrite Hflag in Hseen. subst seen.
    rewrite step_SyncClick_seen in *.
    destruct (IH w Hflag Hno Hsee) as (Hl & Hf & Ho).
    rewrite Hl, Hf, Ho. repeat split; reflexivity.
Qed.

(** The advisor is asked from an idle console, anything but an answer
    happens, then the answer arrives, and every click on the advisor button
    reaches a handler whose render is up to date.  One request has been
    sent however often the button was clicked meanwhile, the flag is
    cleared, and the log is the last 16 of: the old log, the request entry,
    the entries of the deploy clicks in order, the result entry.  With at
    most 14 deploy clicks in between the request entry is still in the log,
    ahead of its result. *)
Theorem result_follows_request (w : World) (t1 t3 : Z)
  (es : list (Z * Event)) (o : AdvisorOutcome) :
  isAiLoading (console w) = false ->
  no_settlement es = true ->
  clicks_see_state ((t1, SyncClick false) :: es) w = true ->
  let final := run ((t1, SyncClick false) :: es ++ [(t3, AdvisorSettled o)]) w in
  let request := mkLogEntry (JS.toString t1) "REQUESTING_AI_INSIGHT..." ai in
  exists (text : string) (kind : LogType),
    let result := mkLogEntry (JS.toString t3) text kind in
    logs (console final)
    = keep_last 16
        (logs (console w) ++ [request] ++ map entry_of (deploy_calls es) ++ [result])
    /\ outbound final = outbound w ++ [advisor_request]
    /\ isAiLoading (console final) = false
    /\ ((List.length (deploy_calls es) <= 14)%nat ->
        exists older : list LogEntry,
          logs (console final)
          = older ++ [request] ++ map entry_of (deploy_calls es) ++ [result]).
Proof.
  intros Hidle Hno Hsee final request.
  set (w1 := step w (t1, SyncClick false)).
  assert (Hw1 : w1 = {| console := with_logs (addLog t1 "REQUESTING_AI_INSIGHT..." ai)
                                     (with_isAiLoading true (console w));
                        outbound := outbound w ++ [advisor_request] |}).
  { unfold w1. rewrite step_SyncClick, (handleSync_idle t1 w). reflexivity. }
  assert (Hbusy : isAiLoading (console w1) = true) by (rewrite Hw1; reflexivity).
  assert (Hsee1 : clicks_see_state es w1 = true).
  { simpl in Hsee. apply andb_prop in Hsee. exact (proj2 Hsee). }
  destruct (run_waiting es w1 Hbusy Hno Hsee1) as (Hl & Hf & Ho).
  assert (Hfinal : final = step (run es w1) (t3, AdvisorSettled o)).
  { unfold final. rewrite run_cons. fold w1. rewrite run_app. reflexivity. }
  destruct (handleSync_resume_logs o t3 (run es w1)) as (text & kind & Hres).
  exists text, kind. cbv zeta.
  set (c1 := mkLogCall t1 "REQUESTING_AI_INSIGHT..." ai).
  set (c3 := mkLogCall t3 text kind).
  assert (Hlogs : logs (console final)
                  = keep_last 16 (logs (console w)
                      ++ [request] ++ map entry_of (deploy_calls es)
                      ++ [mkLogEntry (JS.toString t3) text kind])).
  { rewrite Hfinal, step_AdvisorSettled, Hres, Hl, Hw1. simpl logs.
    change (addLog t3 text kind
              (addLogs (deploy_calls es)
                 (addLog t1 "REQUESTING_AI_INSIGHT..." ai (logs (console w)))))
      with (addLogs [c3] (addLogs (deploy_calls es) (addLogs [c1] (logs (console w))))).
    rewrite <- !addLogs_app. simpl app.
    rewrite addLogs_keep_last. simpl map. rewrite map_app. reflexivity. }
  split; [exact Hlogs |].
  split.
  { rewrite Hfinal, step_AdvisorSettled.
    destruct o; simpl; rewrite Ho, Hw1; reflexivity. }
  split.
  { rewrite Hfinal, step_AdvisorSettled. destruct o; reflexivity. }
  intros Hfew.
  exists (keep_last
            (16 - List.length ([request] ++ map entry_of (deploy_calls es)
                                ++ [mkLogEntry (JS.toString t3) text kind]))
            (logs (console w))).
  rewrite Hlogs. apply keep_last_app_short.
  simpl. rewrite length_app, length_map. simpl. lia.
Qed.

End Waiting.

(** ** The properties above on the sample session *)

(** The sample session leaves the state in range. *)
Lemma run_within_bounds_witness :
  within_bounds (console (run sample_events (initial_world sample_clock))).
Proof.
  destruct (run_within_bounds sample_events (initial_world sample_clock)) as [Hrun _].
  - unfold within_bounds. simpl.
    split; [split; vm_compute; discriminate |].
    split; [exists 892; split; [reflexivity | lia] |].
    split; lia.
  - exact Hrun.
Defined.

(** After the one rotation of the sample session the second item is active. *)
Lemma one_item_active_witness :
  activeStep (console (run sample_events (initial_world sample_clock))) = 1
  /\ active_flags (console (run sample_events (initial_world sample_clock)))
     = [false; true; false; false].
Proof.
  destruct (one_item_active sample_events (initial_world sample_clock))
    as (Hpos & _ & _).
  - simpl. lia.
  - split; [exact Hpos | reflexivity].
Defined.

(** The bars of the initial metrics. *)
Lemma bars_within_track_witness :
  (0 <= MetricBar_width (cpu_progress initial_metrics) <= 100)%Q
  /\ (0 <= MetricBar_width (throughput_progress initial_metrics) <= 100)%Q.
Proof.
  destruct (bars_within_track initial_metrics) as (_ & Hc & _ & Ht).
  - split; vm_compute; discriminate.
  - split; vm_compute; discriminate.
  - split; [exact Hc | exact Ht].
Defined.

(** Two ticks from the initial views. *)
Lemma views_whole_and_bounded_witness :
  exists v' : Z,
    (views (ticks [sample_draws; sample_draws] initial_metrics) == inject_Z v')%Q
    /\ 14284 <= v' <= 14284 + 7 * 2.
Proof.
  apply (views_whole_and_bounded [sample_draws; sample_draws] initial_metrics 14284).
  - repeat constructor; vm_compute; try discriminate; reflexivity.
  - reflexivity.
  - lia.
  - vm_compute. discriminate.
Defined.

(** The sample session: one request sent, one answered, none open. *)
Lemma one_request_in_flight_witness :
  List.length (outbound (run sample_events (initial_world sample_clock))) = 1%nat
  /\ isAiLoading (console (run sample_events (initial_world sample_clock))) = false.
Proof.
  pose proof (one_request_in_flight sample_events (initial_world sample_clock)
                eq_refl eq_refl eq_refl eq_refl) as Hcount.
  split; [exact Hcount | reflexivity].
Defined.

(** Three deploy clicks at three clock readings. *)
Lemma ids_distinct_at_distinct_clocks_witness :
  NoDup (map id (addLogs three_calls initial_logs)).
Proof.
  apply ids_distinct_at_distinct_clocks.
  - repeat constructor; simpl; intuition discriminate.
  - repeat constructor; simpl; unfold sample_clock; intuition lia.
  - intros c [<- | [<- | [<- | []]]]; vm_compute; intuition discriminate.
Defined.

(** The timers of the sample run are cleared by the cleanups. *)
Lemma timers_armed_then_cleared_witness :
  Timers.queue
    (Timers.unmount
       (Timers.occur_all sample_occurrences
          (Timers.mount sample_clock sample_draws (1 # 2) (Timers.boot sample_clock))))
  = [].
Proof.
  destruct (timers_armed_then_cleared sample_clock sample_draws (1 # 2)
              sample_occurrences (Timers.boot sample_clock)) as (_ & Hq & _).
  - reflexivity.
  - exact Hq.
Defined.

(** The timers of the sample run have their delays in range. *)
Lemma timer_delays_in_range_witness :
  Timers.delays_ok
    (Timers.occur_all sample_occurrences
       (Timers.mount sample_clock sample_draws (1 # 2) (Timers.boot sample_clock))).
Proof.
  apply timer_delays_in_range.
  - reflexivity.
  - vm_compute. discriminate.
  - reflexivity.
  - repeat constructor; vm_compute; discriminate.
Defined.

(** A deploy click, a second click on the advisor button and a rotation
    while the advisor is asked. *)
Lemma result_follows_request_witness :
  outbound (run ((sample_clock, SyncClick false)
                   :: sample_wait
                   ++ [(sample_clock + 900,
                        AdvisorSettled (Fulfilled (Some "cache warm"%string)))])
              (initial_world sample_clock))
  = [advisor_request].
Proof.
  destruct (result_follows_request (initial_world sample_clock)
              sample_clock (sample_clock + 900) sample_wait
              (Fulfilled (Some "cache warm"%string)))
    as (text & kind & _ & Hout & _).
  - reflexivity.
  - reflexivity.
  - reflexivity.
  - exact Hout.
Defined.

Example timers_after_sample_run :
  map (fun x => (Timers.handle x, Timers.callback x))
    (Timers.queue
       (Timers.occur_all sample_occurrences
          (Timers.mount sample_clock sample_draws (1 # 2) (Timers.boot sample_clock))))
  = [(4, Timers.cb_nextStep); (5, Timers.cb_updateSystem)].
Proof. vm_compute. reflexivity. Qed.

Example log_of_sample_session :
  map text (logs (console (run sample_events (initial_world sample_clock))))
  = ["SYSTEM_BOOT_COMPLETE"; "LISTENING_FOR_INPUT..."; "REQUESTING_AI_INSIGHT...";
     "INITIATING_CAMPAIGN_SEQUENCE..."; "CACHE WARM"]%string.
Proof. reflexivity. Qed.
